(** * particle_filter.cpp: a particle filter for 2-D vehicle localisation

    A shallow embedding of [src/particle_filter.cpp] and the properties of
    its operations.

    Conventions of the embedding.
    - A C++ [double] (and the [float] coordinates of a map landmark) is a
      real number of [R]: arithmetic is exact, [sin], [cos], [exp] and
      [M_PI] are the functions and the constant of the Reals library, and
      [fabs] is [Rabs].  Rounding, infinities and NaN are not modelled.
    - A C++ [int] is an integer of [Z]; a [size_t] is an integer of [Z]
      reduced modulo [2^64].
    - A [std::vector] is a [list]; a [double a[]] parameter is a function
      from indices to reals (the callers own the storage, every index the
      code reads is taken to exist).
    - The global generator [gen] is an explicit state threaded through the
      operations that draw from it.
    - A call ends in one of three ways, see [outcome]. *)

From Stdlib Require Import Reals Lra Lia List Permutation ZArith String Ascii.
From Stdlib Require Import DecimalString DecimalZ DecimalPos.
Import ListNotations.

Open Scope R_scope.

(** ** Outcomes *)

(** The exceptions that can be named when talking about this file.
    [std_out_of_range] is what [std::string::substr] throws; the other two are
    the error classes of the filter's interface.  The source contains no
    [throw] statement, so only [std_out_of_range] can come out of a
    definition below. *)
Inductive exn : Type :=
| std_out_of_range
| InvalidParameter
| InvalidMap.

(** A call returns a value, leaves by an exception, or has undefined
    behaviour (a read through an iterator or an index that designates no
    element). *)
Inductive outcome (A : Type) : Type :=
| Returns (a : A)
| Throws (e : exn)
| Undefined.

Arguments Returns {A} a.
Arguments Throws {A} e.
Arguments Undefined {A}.

(** ** The random source *)

(** [std::default_random_engine gen], seen through the two distributions the
    file samples with.  The engine is an oracle: [normal_variates k] is the
    standard normal variate and [index_variates k] the raw index that the
    [k]-th draw obtains, and [drawn] counts the draws made so far. *)
Record default_random_engine : Type := mk_engine {
  normal_variates : nat -> R;
  index_variates : nat -> nat;
  drawn : nat
}.

Definition advance (g : default_random_engine) : default_random_engine :=
  mk_engine (normal_variates g) (index_variates g) (S (drawn g)).

(** Computations that draw from the generator and may fail. *)
Definition M (A : Type) : Type :=
  default_random_engine -> outcome (A * default_random_engine).

Definition ret {A : Type} (a : A) : M A :=
  fun g => Returns (a, g).

Definition bind {A B : Type} (m : M A) (k : A -> M B) : M B :=
  fun g =>
    match m g with
    | Returns (a, g') => k a g'
    | Throws e => Throws e
    | Undefined => Undefined
    end.

Definition lift {A : Type} (o : outcome A) : M A :=
  fun g =>
    match o with
    | Returns a => Returns (a, g)
    | Throws e => Throws e
    | Undefined => Undefined
    end.

Declare Scope pf_scope.
Delimit Scope pf_scope with pf.
Notation "x <- m ;; k" := (bind m (fun x => k))
  (at level 61, m at next level, right associativity) : pf_scope.
Open Scope pf_scope.

(** [for (auto& e : v) { body }]: the body rewrites each element in place,
    front to back. *)
Fixpoint for_each {A : Type} (body : A -> M A) (v : list A) : M (list A) :=
  match v with
  | [] => ret []
  | e :: v' =>
      e' <- body e ;;
      v'' <- for_each body v' ;;
      ret (e' :: v'')
  end.

(** [for (auto& e : v) { body }] where the body updates a variable declared
    outside the loop. *)
Fixpoint for_each_acc {A B : Type} (body : B -> A -> M B) (v : list A) (b : B)
  : M B :=
  match v with
  | [] => ret b
  | e :: v' =>
      b' <- body b e ;;
      for_each_acc body v' b'
  end.

(** [std::normal_distribution<double> d(mean, stddev); d(gen)]: a standard
    normal variate scaled by [stddev] and shifted by [mean]. *)
Definition normal_distribution (mean stddev : R) : M R :=
  fun g => Returns (mean + stddev * normal_variates g (drawn g), advance g).

(** [std::discrete_distribution<> d(first, last); d(gen)]: an index below the
    number of weights (index 0 when there is no weight).  Which index comes
    out is the oracle's choice; its dependence on the weights is not
    modelled. *)
Definition discrete_distribution (ws : list R) : M nat :=
  fun g =>
    Returns ((index_variates g (drawn g) mod Nat.max 1 (List.length ws))%nat,
             advance g).

(** ** Data *)

(** Modelled from the spec: the declarations of [particle_filter.h],
    [helper_functions.h] and [map.h] are not part of the sources; these
    records have the fields the functions read and write, and [id] as in the
    data model. *)
Module Particle.
Record t : Type := mk {
  id : Z;
  x : R;
  y : R;
  theta : R;
  weight : R;
  associations : list Z;
  sense_x : list R;
  sense_y : list R
}.
End Particle.
Abbreviation Particle := Particle.t.

(** A value-initialised [Particle], as [vector::resize] and
    [vector<Particle> v(n)] create them. *)
Definition Particle_default : Particle :=
  Particle.mk 0%Z 0 0 0 0 [] [] [].

Module LandmarkObs.
Record t : Type := mk {
  id : Z;
  x : R;
  y : R
}.
End LandmarkObs.
Abbreviation LandmarkObs := LandmarkObs.t.

Record single_landmark_s : Type := mk_landmark {
  id_i : Z;
  x_f : R;
  y_f : R
}.

Record Map : Type := mk_map {
  landmark_list : list single_landmark_s
}.

(** The members of [ParticleFilter] that the functions touch. *)
Record ParticleFilter : Type := mk_filter {
  num_particles : Z;
  particles : list Particle;
  weights : list R
}.

(** [v.resize(n)] *)
Definition resize {A : Type} (d : A) (n : nat) (v : list A) : list A :=
  firstn n v ++ repeat d (n - List.length v).

(** [v[i]] *)
Definition subscript {A : Type} (v : list A) (i : nat) : outcome A :=
  match nth_error v i with
  | Some a => Returns a
  | None => Undefined
  end.

(** ** ParticleFilter::init *)

Definition init (x y theta : R) (std : nat -> R) (pf : ParticleFilter)
  : M ParticleFilter :=
  let num_particles' := 100%Z in
  let dist_x := normal_distribution x (std 0%nat) in
  let dist_y := normal_distribution y (std 1%nat) in
  let dist_theta := normal_distribution theta (std 2%nat) in
  let resized := resize Particle_default (Z.to_nat num_particles') (particles pf) in
  ps <- for_each (fun particle =>
          px <- dist_x ;;
          py <- dist_y ;;
          ptheta <- dist_theta ;;
          ret (Particle.mk (Particle.id particle) px py ptheta 1
                 (Particle.associations particle)
                 (Particle.sense_x particle) (Particle.sense_y particle)))
        resized ;;
  ret (mk_filter num_particles' ps (weights pf)).

(** ** ParticleFilter::prediction *)

Definition prediction (delta_t : R) (std_pos : nat -> R)
  (velocity yaw_rate : R) (pf : ParticleFilter) : M ParticleFilter :=
  let dist_x := normal_distribution 0 (std_pos 0%nat) in
  let dist_y := normal_distribution 0 (std_pos 1%nat) in
  let dist_theta := normal_distribution 0 (std_pos 2%nat) in
  if Rgt_dec (Rabs yaw_rate) 1E-6 then
    ps <- for_each (fun particle =>
            nx <- dist_x ;;
            ny <- dist_y ;;
            ntheta <- dist_theta ;;
            ret (Particle.mk (Particle.id particle)
                   (Particle.x particle
                    + velocity * (sin (Particle.theta particle + yaw_rate * delta_t)
                                  - sin (Particle.theta particle)) / yaw_rate
                    + nx)
                   (Particle.y particle
                    + velocity * (cos (Particle.theta particle + yaw_rate * delta_t)
                                  - cos (Particle.theta particle)) / yaw_rate
                    + ny)
                   (Particle.theta particle + yaw_rate * delta_t + ntheta)
                   (Particle.weight particle)
                   (Particle.associations particle)
                   (Particle.sense_x particle) (Particle.sense_y particle)))
          (particles pf) ;;
    ret (mk_filter (num_particles pf) ps (weights pf))
  else
    ps <- for_each (fun particle =>
            nx <- dist_x ;;
            ny <- dist_y ;;
            ntheta <- dist_theta ;;
            ret (Particle.mk (Particle.id particle)
                   (Particle.x particle
                    + velocity * delta_t * cos (Particle.theta particle) + nx)
                   (Particle.y particle
                    + velocity * delta_t * sin (Particle.theta particle) + ny)
                   (Particle.theta particle + yaw_rate * delta_t + ntheta)
                   (Particle.weight particle)
                   (Particle.associations particle)
                   (Particle.sense_x particle) (Particle.sense_y particle)))
          (particles pf) ;;
    ret (mk_filter (num_particles pf) ps (weights pf)).

(** ** ParticleFilter::dataAssociation *)

(** The body is empty.  [predicted] is passed by value and [observations] by
    reference, so the call hands back the observations next to the filter. *)
Definition dataAssociation (predicted observations : list LandmarkObs)
  (pf : ParticleFilter) : M (list LandmarkObs * ParticleFilter) :=
  ret (observations, pf).

(** ** findNearestNeighbour *)

(** The loop of [findNearestNeighbour] over the landmarks that remain, with
    the current values of the locals [minDist] and [nn]. *)
Fixpoint findNearestNeighbour_loop (x y : R) (rest : list single_landmark_s)
  (minDist : R) (nn : single_landmark_s) : single_landmark_s :=
  match rest with
  | [] => nn
  | landmark :: rest' =>
      let dist := (x - x_f landmark) * (x - x_f landmark)
                  + (y - y_f landmark) * (y - y_f landmark) in
      if Rlt_dec dist minDist
      then findNearestNeighbour_loop x y rest' dist landmark
      else findNearestNeighbour_loop x y rest' minDist nn
  end.

(** [nn] starts as the address of [*map.landmark_list.begin()], which
    designates no element when the list is empty. *)
Definition findNearestNeighbour (x y : R) (map : Map)
  : outcome single_landmark_s :=
  match landmark_list map with
  | [] => Undefined
  | first :: _ =>
      Returns (findNearestNeighbour_loop x y (landmark_list map) 1E9 first)
  end.

(** ** ParticleFilter::updateWeights *)

(** The value given to the local [P] for one observation. *)
Definition updateWeights_P (std_landmark : nat -> R) (x_map y_map : R)
  (lm : single_landmark_s) : R :=
  let sigX2 := std_landmark 0%nat * std_landmark 0%nat in
  let sigY2 := std_landmark 1%nat * std_landmark 1%nat in
  exp (- ((x_map - x_f lm) * (x_map - x_f lm) / 2 * std_landmark 0%nat / sigX2
          + (y_map - y_f lm) * (y_map - y_f lm) / sigY2))
  / (2 * PI * std_landmark 0%nat * std_landmark 1%nat).

(** [sensor_range] is a parameter of the function and is read nowhere in its
    body.  The final [resize] and [std::transform] leave in [weights] the
    weight of each particle, in order. *)
Definition updateWeights (sensor_range : R) (std_landmark : nat -> R)
  (observations : list LandmarkObs) (map_landmarks : Map)
  (pf : ParticleFilter) : M ParticleFilter :=
  ps <- for_each (fun particle =>
          let reset :=
            Particle.mk (Particle.id particle) (Particle.x particle)
              (Particle.y particle) (Particle.theta particle) 1
              (Particle.associations particle)
              (Particle.sense_x particle) (Particle.sense_y particle) in
          for_each_acc (fun particle obs =>
            let x_map := Particle.x particle
                         + (cos (Particle.theta particle) * LandmarkObs.x obs)
                         - (sin (Particle.theta particle) * LandmarkObs.y obs) in
            let y_map := Particle.y particle
                         + (sin (Particle.theta particle) * LandmarkObs.x obs)
                         + (cos (Particle.theta particle) * LandmarkObs.y obs) in
            lm <- lift (findNearestNeighbour x_map y_map map_landmarks) ;;
            let P := updateWeights_P std_landmark x_map y_map lm in
            ret (Particle.mk (Particle.id particle) (Particle.x particle)
                   (Particle.y particle) (Particle.theta particle)
                   (Particle.weight particle * P)
                   (Particle.associations particle)
                   (Particle.sense_x particle) (Particle.sense_y particle)))
            observations reset)
        (particles pf) ;;
  ret (mk_filter (num_particles pf) ps (List.map Particle.weight ps)).

(** ** ParticleFilter::resample *)

Definition resample (pf : ParticleFilter) : M ParticleFilter :=
  let newParticles := repeat Particle_default (List.length (particles pf)) in
  let dist_w := discrete_distribution (weights pf) in
  newParticles' <- for_each (fun _ =>
                     i <- dist_w ;;
                     lift (subscript (particles pf) i))
                   newParticles ;;
  ret (mk_filter (num_particles pf) newParticles' (weights pf)).

(** ** ParticleFilter::SetAssociations *)

Definition SetAssociations (particle : Particle) (associations : list Z)
  (sense_x sense_y : list R) : Particle :=
  Particle.mk (Particle.id particle) (Particle.x particle)
    (Particle.y particle) (Particle.theta particle) (Particle.weight particle)
    associations sense_x sense_y.

(** ** ParticleFilter::getAssociations and ParticleFilter::getSenseCoord *)

(** [a - b] on [size_t]: the difference modulo [2^64]. *)
Definition size_t_sub (a b : Z) : Z := ((a - b) mod 2 ^ 64)%Z.

(** [s.length()] *)
Definition string_length (s : string) : Z := Z.of_nat (String.length s).

(** [s.substr(pos, n)]: throws [std::out_of_range] when [pos] is beyond the
    end of [s], and otherwise yields the characters from [pos] on, [n] of
    them or as many as there are. *)
Definition substr (s : string) (pos n : Z) : outcome string :=
  if (string_length s <? pos)%Z then Throws std_out_of_range
  else Returns (String.substring (Z.to_nat pos)
                  (Z.to_nat (Z.min n (string_length s - pos))) s).

(** [copy(v.begin(), v.end(), std::ostream_iterator<T>(ss, delim))] followed
    by [ss.str()]: every element is written with the formatting of [T] and
    followed by the delimiter. *)
Fixpoint copy_ostream {A : Type} (format : A -> string) (delim : string)
  (v : list A) : string :=
  match v with
  | [] => EmptyString
  | a :: v' => (format a ++ delim ++ copy_ostream format delim v')%string
  end.

(** [operator<<] on an [int]: decimal digits, with a minus sign when
    negative. *)
Definition format_int (n : Z) : string :=
  NilZero.string_of_int (Z.to_int n).

Definition getAssociations (best : Particle) : outcome string :=
  let v := Particle.associations best in
  let s := copy_ostream format_int " " v in
  substr s 0 (size_t_sub (string_length s) 1).

Section SenseCoord.

(** [operator<<] on the [float] that a [double] converts to.  The digits it
    writes depend on binary rounding, which real numbers do not have; the
    formatting is a parameter. *)
Variable format_float : R -> string.

Definition getSenseCoord (best : Particle) (coord : string) : outcome string :=
  let v := if String.eqb coord "X" then Particle.sense_x best
           else Particle.sense_y best in
  let s := copy_ostream format_float " " v in
  substr s 0 (size_t_sub (string_length s) 1).

End SenseCoord.

(** ** The harness's view: phases of a filter cycle *)

(** The calls that the harness makes on an initialised filter, with their
    arguments. *)
Inductive phase : Type :=
| Predict (delta_t : R) (std_pos : nat -> R) (velocity yaw_rate : R)
| UpdateWeights (sensor_range : R) (std_landmark : nat -> R)
    (observations : list LandmarkObs) (map_landmarks : Map)
| Resample.

Definition run_phase (ph : phase) (pf : ParticleFilter) : M ParticleFilter :=
  match ph with
  | Predict delta_t std_pos velocity yaw_rate =>
      prediction delta_t std_pos velocity yaw_rate pf
  | UpdateWeights sensor_range std_landmark observations map_landmarks =>
      updateWeights sensor_range std_landmark observations map_landmarks pf
  | Resample => resample pf
  end.

Fixpoint run_phases (phs : list phase) (pf : ParticleFilter)
  : M ParticleFilter :=
  match phs with
  | [] => ret pf
  | ph :: phs' => pf' <- run_phase ph pf ;; run_phases phs' pf'
  end.

(** A phase that attempts no association against an empty map. *)
Definition map_present (ph : phase) : Prop :=
  match ph with
  | UpdateWeights _ _ _ map_landmarks => landmark_list map_landmarks <> []
  | _ => True
  end.

(** ** The density the weighting step is documented to use *)

(** The bivariate Gaussian density with independent axes, as the interface
    states it: [exp(-(dx^2/(2 sx^2) + dy^2/(2 sy^2))) / (2 pi sx sy)]. *)
Definition gaussian_density (sigma_x sigma_y dx dy : R) : R :=
  exp (- ((dx * dx) / (2 * (sigma_x * sigma_x))
          + (dy * dy) / (2 * (sigma_y * sigma_y))))
  / (2 * PI * sigma_x * sigma_y).

(** Squared Euclidean distance from a point to a landmark, the quantity
    [dist] of [findNearestNeighbour]. *)
Definition sqdist (x y : R) (lm : single_landmark_s) : R :=
  (x - x_f lm) * (x - x_f lm) + (y - y_f lm) * (y - y_f lm).

(** Arrays of three and of two entries. *)
Definition array3 (a b c : R) : nat -> R :=
  fun i => match i with 0%nat => a | 1%nat => b | _ => c end.

Definition array2 (a b : R) : nat -> R :=
  fun i => match i with 0%nat => a | _ => b end.

(** Concrete values used in the examples. *)
Definition engine0 : default_random_engine :=
  mk_engine (fun _ => 0) (fun _ => 0%nat) 0.

Definition particle_at (x y theta : R) : Particle :=
  Particle.mk 0%Z x y theta 1 [] [] [].

Definition filter_of (ps : list Particle) : ParticleFilter :=
  mk_filter (Z.of_nat (List.length ps)) ps [].

Definition lm_origin : single_landmark_s := mk_landmark 1%Z 0 0.
Definition lm_east : single_landmark_s := mk_landmark 2%Z 50000 0.

(** Two landmarks, both far from the point (100000, 0): squared distances
    1e10 and 2.5e9. *)
Definition far_map : Map := mk_map [lm_origin; lm_east].

(** The landmark that [findNearestNeighbour] returns sits at a place of the
    list before which every landmark is strictly farther from the point and
    after which none is nearer. *)
Definition returns_closest_first (x y : R) (map : Map) : Prop :=
  exists pre lm post,
    landmark_list map = pre ++ lm :: post
    /\ findNearestNeighbour x y map = Returns lm
    /\ Forall (fun p => sqdist x y lm < sqdist x y p) pre
    /\ Forall (fun q => sqdist x y lm <= sqdist x y q) post.


(** The two bodies of the loops of [prediction] when the three noise terms
    are zero: lines 69-71 (the turning branch) and lines 75-77 (the
    straight branch) of the source. *)
Definition arc_update (delta_t velocity yaw_rate : R) (particle : Particle)
  : Particle :=
  Particle.mk (Particle.id particle)
    (Particle.x particle
     + velocity * (sin (Particle.theta particle + yaw_rate * delta_t)
                   - sin (Particle.theta particle)) / yaw_rate)
    (Particle.y particle
     + velocity * (cos (Particle.theta particle + yaw_rate * delta_t)
                   - cos (Particle.theta particle)) / yaw_rate)
    (Particle.theta particle + yaw_rate * delta_t)
    (Particle.weight particle)
    (Particle.associations particle)
    (Particle.sense_x particle) (Particle.sense_y particle).

Definition straight_update (delta_t velocity yaw_rate : R)
  (particle : Particle) : Particle :=
  Particle.mk (Particle.id particle)
    (Particle.x particle + velocity * delta_t * cos (Particle.theta particle))
    (Particle.y particle + velocity * delta_t * sin (Particle.theta particle))
    (Particle.theta particle + yaw_rate * delta_t)
    (Particle.weight particle)
    (Particle.associations particle)
    (Particle.sense_x particle) (Particle.sense_y particle).

(** The pose of a particle. *)
Definition pose (particle : Particle) : R * R * R :=
  (Particle.x particle, Particle.y particle, Particle.theta particle).

(** One particle at the origin heading along the x axis, one observation one
    unit to its left, one landmark at the origin. *)
Definition obs_left : LandmarkObs := LandmarkObs.mk 0%Z 0 1.

Definition origin_map : Map := mk_map [lm_origin].

Definition origin_filter : ParticleFilter := filter_of [particle_at 0 0 0].

Definition empty_map : Map := mk_map [].

(** What holds of the filter between the phases of a cycle: the population
    has [num_particles] entries, [num_particles] is the 100 that [init]
    sets, and the weight vector is no longer than the population. *)
Definition sized (pf : ParticleFilter) : Prop :=
  List.length (particles pf) = Z.to_nat (num_particles pf)
  /\ num_particles pf = 100%Z
  /\ (List.length (weights pf) <= List.length (particles pf))%nat.

(** A filter on which nothing has run yet, and the calls of one cycle. *)
Definition fresh_filter : ParticleFilter := mk_filter 0%Z [] [].

Definition one_cycle : list phase :=
  [Predict (1 / 10) (array3 1 1 1) 5 0;
   UpdateWeights 50 (array2 1 1) [obs_left] origin_map;
   Resample].

(** ** Vocabulary of the further properties *)

(** The generator after [k] more draws. *)
Definition after_draws (k : nat) (g : default_random_engine)
  : default_random_engine :=
  Nat.iter k advance g.

(** The fields of a particle that hold no pose and no weight. *)
Definition bookkeeping (particle : Particle)
  : Z * list Z * list R * list R :=
  (Particle.id particle, Particle.associations particle,
   Particle.sense_x particle, Particle.sense_y particle).

(** A particle with another weight. *)
Definition with_weight (particle : Particle) (w : R) : Particle :=
  Particle.mk (Particle.id particle) (Particle.x particle)
    (Particle.y particle) (Particle.theta particle) w
    (Particle.associations particle)
    (Particle.sense_x particle) (Particle.sense_y particle).

(** The value of [P] for one particle and one observation against a map with
    a first landmark: the observation is carried into the map frame (lines
    132-133), the loop of [findNearestNeighbour] picks the landmark, and
    line 135 gives the value. *)
Definition observation_P (std_landmark : nat -> R)
  (first : single_landmark_s) (rest : list single_landmark_s)
  (particle : Particle) (obs : LandmarkObs) : R :=
  let x_map := Particle.x particle
               + (cos (Particle.theta particle) * LandmarkObs.x obs)
               - (sin (Particle.theta particle) * LandmarkObs.y obs) in
  let y_map := Particle.y particle
               + (sin (Particle.theta particle) * LandmarkObs.x obs)
               + (cos (Particle.theta particle) * LandmarkObs.y obs) in
  updateWeights_P std_landmark x_map y_map
    (findNearestNeighbour_loop x_map y_map (first :: rest) 1E9 first).

(** The product of the values of [P] over a list of observations. *)
Definition weight_product (std_landmark : nat -> R)
  (first : single_landmark_s) (rest : list single_landmark_s)
  (particle : Particle) (observations : list LandmarkObs) : R :=
  fold_right (fun obs acc => observation_P std_landmark first rest particle obs * acc)
    1 observations.

(** The text of a list with one separator between neighbours and none at
    the end. *)
Definition joined {A : Type} (format : A -> string) (v : list A) : string :=
  String.concat " " (List.map format v).

(** Characters of a string. *)
Fixpoint chars (s : string) : list ascii :=
  match s with
  | EmptyString => []
  | String c s' => c :: chars s'
  end.

(** The deterministic part of [prediction] for one particle: the turning
    update when [|yaw_rate| > 1e-6], the straight update otherwise. *)
Definition motion_update (delta_t velocity yaw_rate : R) : Particle -> Particle :=
  if Rgt_dec (Rabs yaw_rate) 1E-6
  then arc_update delta_t velocity yaw_rate
  else straight_update delta_t velocity yaw_rate.

(** A filter whose only particle carries an id and association lists. *)
Definition tagged_particle : Particle :=
  Particle.mk 9%Z 3 4 0 (1 / 2) [7%Z; 12%Z] [1; 2] [5; 6].

Definition tagged_filter : ParticleFilter := filter_of [tagged_particle].
(** * Properties *)

(** ** Sanity checks of the string helpers *)

Example substr_drops_trailing_space :
  getAssociations (Particle.mk 0%Z 0 0 0 1 [3%Z; (-12)%Z; 0%Z] [] [])
  = Returns "3 -12 0"%string.
Proof. reflexivity. Qed.

Example substr_past_the_end :
  substr "ab" 3 1 = Throws std_out_of_range.
Proof. reflexivity. Qed.

(** ** Nearest neighbour *)

(** What the loop leaves in [nn]: either no remaining landmark is below the
    current minimum and [nn] is kept, or the result is the first remaining
    landmark of least distance, and that distance is below the minimum. *)
Lemma findNearestNeighbour_loop_spec (x y : R) (rest : list single_landmark_s) :
  forall (minDist : R) (nn : single_landmark_s),
    (findNearestNeighbour_loop x y rest minDist nn = nn
     /\ Forall (fun lm => minDist <= sqdist x y lm) rest)
    \/ (exists pre lm post,
          rest = pre ++ lm :: post
          /\ findNearestNeighbour_loop x y rest minDist nn = lm
          /\ sqdist x y lm < minDist
          /\ Forall (fun p => sqdist x y lm < sqdist x y p) pre
          /\ Forall (fun q => sqdist x y lm <= sqdist x y q) post).
Proof.
  induction rest as [|landmark rest IH]; intros minDist nn; simpl.
  - left. split; [reflexivity | constructor].
  - fold (sqdist x y landmark).
    destruct (Rlt_dec (sqdist x y landmark) minDist) as [Hlt | Hge].
    + right.
      destruct (IH (sqdist x y landmark) landmark)
        as [[Hkeep Hall] | (pre & lm & post & Hrest & Hres & Hless & Hpre & Hpost)].
      * exists [], landmark, rest. simpl.
        repeat split; auto.
      * exists (landmark :: pre), lm, post. simpl.
        repeat split; auto.
        -- now rewrite Hrest.
        -- lra.
    + destruct (IH minDist nn)
        as [[Hkeep Hall] | (pre & lm & post & Hrest & Hres & Hless & Hpre & Hpost)].
      * left. split; auto. constructor; auto. lra.
      * right. exists (landmark :: pre), lm, post. simpl.
        repeat split; auto.
        -- now rewrite Hrest.
        -- constructor; auto. lra.
Qed.

Lemma Forall_not_below (x y bound : R) (l : list single_landmark_s) lm :
  Forall (fun lm' => bound <= sqdist x y lm') l ->
  In lm l -> sqdist x y lm < bound -> False.
Proof.
  intros Hall Hin Hlt.
  rewrite Forall_forall in Hall. specialize (Hall lm Hin). lra.
Qed.

(** When every landmark is at squared distance 1e9 or more, the initial
    candidate survives the loop. *)
Lemma findNearestNeighbour_all_far (x y : R) (map : Map) first rest :
  landmark_list map = first :: rest ->
  Forall (fun lm => 1E9 <= sqdist x y lm) (first :: rest) ->
  findNearestNeighbour x y map = Returns first.
Proof.
  intros Hmap Hfar. unfold findNearestNeighbour. rewrite Hmap.
  destruct (findNearestNeighbour_loop_spec x y (first :: rest) 1E9 first)
    as [[Hkeep _] | (pre & lm & post & Hrest & _ & Hless & _)].
  - now rewrite Hkeep.
  - exfalso. apply (Forall_not_below x y 1E9 (first :: rest) lm); auto.
    rewrite Hrest. apply in_or_app. right. now left.
Qed.

(** A landmark that [returns_closest_first] designates is at least as near
    as every landmark of the map. *)
Lemma returns_closest_first_least (x y : R) (map : Map) lm :
  returns_closest_first x y map ->
  In lm (landmark_list map) ->
  forall r, findNearestNeighbour x y map = Returns r ->
            sqdist x y r <= sqdist x y lm.
Proof.
  intros (pre & lm' & post & Hmap & Hres & Hpre & Hpost) Hin r Hr.
  rewrite Hres in Hr. injection Hr as <-.
  rewrite Hmap in Hin. apply in_app_or in Hin.
  rewrite Forall_forall in Hpre, Hpost.
  destruct Hin as [Hin | [<- | Hin]].
  - specialize (Hpre lm Hin). lra.
  - lra.
  - now apply Hpost.
Qed.

Lemma sqdist_far_origin : sqdist 100000 0 lm_origin = 10000000000.
Proof. unfold sqdist, lm_origin; simpl. lra. Qed.

Lemma sqdist_far_east : sqdist 100000 0 lm_east = 2500000000.
Proof. unfold sqdist, lm_east; simpl. lra. Qed.

Lemma far_map_all_far :
  Forall (fun lm => 1E9 <= sqdist 100000 0 lm) [lm_origin; lm_east].
Proof.
  repeat constructor; [rewrite sqdist_far_origin | rewrite sqdist_far_east]; lra.
Qed.

(** C3, as stated, fails: from (100000, 0) the landmark at (50000, 0) is the
    nearer of the two of [far_map], and the one at the origin is
    returned. *)
Lemma findNearestNeighbour_not_always_closest :
  landmark_list far_map <> []
  /\ ~ returns_closest_first 100000 0 far_map.
Proof.
  split; [discriminate |].
  intros Hclaim.
  assert (Hret : findNearestNeighbour 100000 0 far_map = Returns lm_origin).
  { apply findNearestNeighbour_all_far with (rest := [lm_east]);
      [reflexivity | apply far_map_all_far]. }
  pose proof (returns_closest_first_least 100000 0 far_map lm_east Hclaim
                (or_intror (or_introl eq_refl)) lm_origin Hret) as Hle.
  rewrite sqdist_far_origin, sqdist_far_east in Hle. lra.
Qed.

(** C3, amended: when some landmark of the map lies at squared distance
    below 1e9 from the query point, [findNearestNeighbour] returns a closest
    landmark, and of several at that least distance the first in the order
    of the map. *)
Theorem findNearestNeighbour_closest_first (x y : R) (map : Map) :
  (exists lm, In lm (landmark_list map) /\ sqdist x y lm < 1E9) ->
  returns_closest_first x y map.
Proof.
  intros (near & Hin & Hnear).
  unfold returns_closest_first, findNearestNeighbour.
  destruct (landmark_list map) as [|first rest] eqn:Hmap; [contradiction |].
  destruct (findNearestNeighbour_loop_spec x y (first :: rest) 1E9 first)
    as [[_ Hall] | (pre & lm & post & Hrest & Hres & _ & Hpre & Hpost)].
  - exfalso. now apply (Forall_not_below x y 1E9 (first :: rest) near).
  - exists pre, lm, post. rewrite Hres. auto.
Qed.

Lemma findNearestNeighbour_closest_first_witness :
  (exists lm, In lm [lm_east; lm_origin] /\ sqdist 50000 0 lm < 1E9)
  /\ returns_closest_first 50000 0 (mk_map [lm_east; lm_origin]).
Proof.
  assert (H : exists lm, In lm [lm_east; lm_origin] /\ sqdist 50000 0 lm < 1E9).
  { exists lm_east. split; [now left |].
    unfold sqdist, lm_east; simpl. lra. }
  split; [exact H |].
  exact (findNearestNeighbour_closest_first 50000 0 (mk_map [lm_east; lm_origin]) H).
Defined.

(** C8: the running minimum starts at 1e9 and the candidate at the first
    landmark, so a query point at squared distance 1e9 or more from every
    landmark gets the first landmark of the map, whichever landmark is
    nearest; a landmark strictly nearer than the first one is then passed
    over. *)
Theorem findNearestNeighbour_far_returns_first (x y : R) (map : Map)
  (first : single_landmark_s) (rest : list single_landmark_s) :
  landmark_list map = first :: rest ->
  Forall (fun lm => 1E9 <= sqdist x y lm) (first :: rest) ->
  findNearestNeighbour x y map = Returns first
  /\ forall lm, In lm rest -> sqdist x y lm < sqdist x y first ->
                ~ returns_closest_first x y map.
Proof.
  intros Hmap Hfar.
  assert (Hret : findNearestNeighbour x y map = Returns first)
    by now apply findNearestNeighbour_all_far with (rest := rest).
  split; [exact Hret |].
  intros lm Hin Hlt Hclaim.
  assert (Hin' : In lm (landmark_list map)) by (rewrite Hmap; now right).
  pose proof (returns_closest_first_least x y map lm Hclaim Hin' first Hret).
  lra.
Qed.

Lemma findNearestNeighbour_far_returns_first_witness :
  findNearestNeighbour 100000 0 far_map = Returns lm_origin
  /\ forall lm, In lm [lm_east] ->
                sqdist 100000 0 lm < sqdist 100000 0 lm_origin ->
                ~ returns_closest_first 100000 0 far_map.
Proof.
  exact (findNearestNeighbour_far_returns_first 100000 0 far_map
           lm_origin [lm_east] eq_refl far_map_all_far).
Defined.

(** ** Loops *)

Ltac run_monad := unfold bind, ret, lift, normal_distribution in *.

(** Splits an equation between poses into one equation per coordinate. *)
Ltac split_pose :=
  repeat match goal with
         | |- (_, _) = (_, _) => apply f_equal2
         end;
  try reflexivity.

(** A loop whose body always returns, returns, and keeps the length of the
    vector. *)
Lemma for_each_total {A : Type} (body : A -> M A) (v : list A) :
  Forall (fun e => forall g, exists e' g', body e g = Returns (e', g')) v ->
  forall g, exists v' g',
    for_each body v g = Returns (v', g') /\ List.length v' = List.length v.
Proof.
  induction 1 as [|e v He _ IH]; intros g; simpl.
  - exists [], g. split; reflexivity.
  - destruct (He g) as (e' & g1 & Hbody).
    destruct (IH g1) as (v' & g2 & Hloop & Hlen).
    exists (e' :: v'), g2. unfold bind at 1. rewrite Hbody.
    unfold bind at 1. rewrite Hloop. simpl. split; [reflexivity | congruence].
Qed.

(** A loop that returns keeps the length of the vector. *)
Lemma for_each_length {A : Type} (body : A -> M A) (v : list A) :
  forall g v' g',
    for_each body v g = Returns (v', g') -> List.length v' = List.length v.
Proof.
  induction v as [|e v IH]; intros g v' g' Hrun; simpl in Hrun.
  - unfold ret in Hrun. injection Hrun as <- _. reflexivity.
  - unfold bind at 1 in Hrun.
    destruct (body e g) as [[e1 g1] | | ]; try discriminate.
    unfold bind at 1 in Hrun.
    destruct (for_each body v g1) as [[v1 g2] | | ] eqn:Hloop; try discriminate.
    unfold ret in Hrun. injection Hrun as <- _. simpl.
    f_equal. now apply (IH g1 v1 g2).
Qed.

(** A loop whose body applies a function to the element, whatever it draws,
    maps that function over the vector. *)
Lemma for_each_map {A : Type} (body : A -> M A) (f : A -> A) (v : list A) :
  (forall e g, exists g', body e g = Returns (f e, g')) ->
  forall g, exists g', for_each body v g = Returns (List.map f v, g').
Proof.
  intros Hbody. induction v as [|e v IH]; intros g; simpl.
  - exists g. reflexivity.
  - destruct (Hbody e g) as (g1 & He).
    destruct (IH g1) as (g2 & Hloop).
    exists g2. unfold bind at 1. rewrite He.
    unfold bind at 1. rewrite Hloop. reflexivity.
Qed.

(** ** Prediction *)

(** With the three noise deviations zero, [prediction] moves every particle
    by the turning update when [|yaw_rate| > 1e-6] and by the straight update
    otherwise. *)
Lemma prediction_noiseless (delta_t : R) (std_pos : nat -> R)
  (velocity yaw_rate : R) (pf : ParticleFilter) (g : default_random_engine) :
  std_pos 0%nat = 0 -> std_pos 1%nat = 0 -> std_pos 2%nat = 0 ->
  exists g',
    prediction delta_t std_pos velocity yaw_rate pf g
    = Returns (mk_filter (num_particles pf)
                 (List.map (if Rgt_dec (Rabs yaw_rate) 1E-6
                            then arc_update delta_t velocity yaw_rate
                            else straight_update delta_t velocity yaw_rate)
                    (particles pf))
                 (weights pf), g').
Proof.
  intros H0 H1 H2. unfold prediction. rewrite H0, H1, H2.
  destruct (Rgt_dec (Rabs yaw_rate) 1E-6) as [Hturn | Hstraight].
  - match goal with |- context [for_each ?b _] =>
      destruct (for_each_map b (arc_update delta_t velocity yaw_rate)
                  (particles pf)) with (g := g) as (g' & Hloop)
    end.
    + intros e g0. run_monad. eexists. f_equal. f_equal.
      unfold arc_update. f_equal; ring.
    + exists g'. unfold bind at 1. rewrite Hloop. reflexivity.
  - match goal with |- context [for_each ?b _] =>
      destruct (for_each_map b (straight_update delta_t velocity yaw_rate)
                  (particles pf)) with (g := g) as (g' & Hloop)
    end.
    + intros e g0. run_monad. eexists. f_equal. f_equal.
      unfold straight_update. f_equal; ring.
    + exists g'. unfold bind at 1. rewrite Hloop. reflexivity.
Qed.

(** Straight-line motion from the origin: the particle ends at
    [(v*t, 0, 0)]. *)
Lemma straight_update_from_origin (t v : R) :
  pose (straight_update t v 0 (particle_at 0 0 0)) = (v * t, 0, 0).
Proof.
  unfold pose, straight_update, particle_at; simpl.
  rewrite cos_0, sin_0. split_pose; ring.
Qed.

(** Turning motion from the origin: the [y] coordinate is
    [(v/w) * (cos (w*t) - 1)], the opposite of the closed form
    [(v/w) * (1 - cos (w*t))]. *)
Lemma arc_update_from_origin (t v w : R) :
  w <> 0 ->
  pose (arc_update t v w (particle_at 0 0 0))
  = ((v / w) * sin (w * t), - ((v / w) * (1 - cos (w * t))), w * t).
Proof.
  intros Hw. unfold pose, arc_update, particle_at; simpl.
  rewrite cos_0, sin_0, !Rplus_0_l.
  split_pose; field; exact Hw.
Qed.

(** C2 (code defect): with zero noise, velocity 1 and yaw rate 1 for a time
    [PI], a particle at the origin is moved by [prediction] to [(0, -2, PI)],
    where the closed form [((v/w) sin (w t), (v/w) (1 - cos (w t)), w t)]
    gives [(0, 2, PI)]. *)
Theorem prediction_arc_mirrors_y :
  exists pf' g',
    prediction PI (array3 0 0 0) 1 1 origin_filter engine0 = Returns (pf', g')
    /\ List.map pose (particles pf') = [(0, -2, PI)]
    /\ ((1 / 1) * sin (1 * PI), (1 / 1) * (1 - cos (1 * PI)), 1 * PI)
       = (0, 2, PI).
Proof.
  destruct (prediction_noiseless PI (array3 0 0 0) 1 1 origin_filter engine0
              eq_refl eq_refl eq_refl) as (g' & Hrun).
  eexists; exists g'. split; [exact Hrun |].
  unfold origin_filter, filter_of. cbn [particles List.map].
  rewrite Rmult_1_l, sin_PI, cos_PI.
  destruct (Rgt_dec (Rabs 1) 1E-6) as [_ | Hsmall].
  - rewrite arc_update_from_origin by lra.
    rewrite Rmult_1_l, sin_PI, cos_PI.
    split; [f_equal |]; split_pose; lra.
  - exfalso. apply Hsmall. rewrite Rabs_R1. lra.
Qed.

(** The straight-line half of C2 holds: with zero noise and a zero yaw rate,
    a particle at the origin is moved to exactly [(v*t, 0, 0)]. *)
Lemma prediction_straight_line_exact (t v : R) (std_pos : nat -> R)
  (g : default_random_engine) :
  std_pos 0%nat = 0 -> std_pos 1%nat = 0 -> std_pos 2%nat = 0 ->
  exists pf' g',
    prediction t std_pos v 0 origin_filter g = Returns (pf', g')
    /\ List.map pose (particles pf') = [(v * t, 0, 0)].
Proof.
  intros H0 H1 H2.
  destruct (prediction_noiseless t std_pos v 0 origin_filter g H0 H1 H2)
    as (g' & Hrun).
  eexists; exists g'. split; [exact Hrun |].
  unfold origin_filter, filter_of. cbn [particles List.map].
  destruct (Rgt_dec (Rabs 0) 1E-6) as [Hturn | _].
  - exfalso. rewrite Rabs_R0 in Hturn. lra.
  - now rewrite straight_update_from_origin.
Qed.

(** ** Weighting *)

(** A map of one landmark: that landmark is the result for every point. *)
Lemma findNearestNeighbour_singleton (x y : R) (lm : single_landmark_s) :
  findNearestNeighbour x y (mk_map [lm]) = Returns lm.
Proof.
  unfold findNearestNeighbour; simpl.
  destruct (Rlt_dec _ _); reflexivity.
Qed.

(** What the expression for [P] amounts to for non-zero deviations: the
    squared [x] offset is divided by [2 sigma_x] and the squared [y] offset
    by [sigma_y^2]. *)
Lemma updateWeights_P_value (std_landmark : nat -> R) (x_map y_map : R)
  (lm : single_landmark_s) :
  std_landmark 0%nat <> 0 -> std_landmark 1%nat <> 0 ->
  updateWeights_P std_landmark x_map y_map lm
  = exp (- ((x_map - x_f lm) * (x_map - x_f lm) / (2 * std_landmark 0%nat)
            + (y_map - y_f lm) * (y_map - y_f lm)
              / (std_landmark 1%nat * std_landmark 1%nat)))
    / (2 * PI * std_landmark 0%nat * std_landmark 1%nat).
Proof.
  intros Hx Hy. unfold updateWeights_P. cbv zeta.
  f_equal. f_equal. field. split; assumption.
Qed.

Lemma two_PI_neq_0 : 2 * PI <> 0.
Proof. pose proof PI_RGT_0. lra. Qed.

(** C1 (code defect): with both landmark deviations 1 and an observation
    that lands one unit off the landmark along [y], [updateWeights] leaves the
    weight [exp (-1) / (2 PI)], where the bivariate Gaussian density is
    [exp (-1/2) / (2 PI)]. *)
Theorem updateWeights_density_not_gaussian :
  exists w,
    updateWeights 50 (array2 1 1) [obs_left] origin_map origin_filter engine0
    = Returns (mk_filter 1%Z [Particle.mk 0%Z 0 0 0 w [] [] []] [w], engine0)
    /\ w = exp (- 1) / (2 * PI)
    /\ gaussian_density 1 1 (0 - x_f lm_origin) (1 - y_f lm_origin)
       = exp (- (1 / 2)) / (2 * PI)
    /\ w <> gaussian_density 1 1 (0 - x_f lm_origin) (1 - y_f lm_origin).
Proof.
  assert (Hgauss : gaussian_density 1 1 (0 - x_f lm_origin) (1 - y_f lm_origin)
                   = exp (- (1 / 2)) / (2 * PI)).
  { unfold gaussian_density, lm_origin; simpl. f_equal; [f_equal |]; lra. }
  assert (Hcode : 1 * updateWeights_P (array2 1 1)
                        (0 + cos 0 * LandmarkObs.x obs_left
                         - sin 0 * LandmarkObs.y obs_left)
                        (0 + sin 0 * LandmarkObs.x obs_left
                         + cos 0 * LandmarkObs.y obs_left) lm_origin
                  = exp (- 1) / (2 * PI)).
  { rewrite updateWeights_P_value by (simpl; lra).
    unfold obs_left, lm_origin; simpl. rewrite cos_0, sin_0.
    rewrite Rmult_1_l. f_equal; [f_equal |]; lra. }
  exists (exp (- 1) / (2 * PI)). split.
  { unfold updateWeights, origin_filter, filter_of, particle_at, origin_map.
    cbn [particles for_each for_each_acc num_particles List.map List.length
         Particle.id Particle.x Particle.y Particle.theta Particle.weight
         Particle.associations Particle.sense_x Particle.sense_y].
    rewrite findNearestNeighbour_singleton. run_monad.
    cbn [Particle.weight List.map Z.of_nat Pos.of_succ_nat].
    rewrite Hcode. reflexivity. }
  split; [reflexivity |]. split; [exact Hgauss |].
  rewrite Hgauss. intros Heq.
  apply Rmult_eq_compat_r with (r := 2 * PI) in Heq.
  unfold Rdiv in Heq.
  rewrite !Rmult_assoc, Rinv_l, !Rmult_1_r in Heq by apply two_PI_neq_0.
  apply exp_inv in Heq. lra.
Qed.

Lemma findNearestNeighbour_empty (x y : R) (map : Map) :
  landmark_list map = [] -> findNearestNeighbour x y map = Undefined.
Proof.
  intros Hmap. unfold findNearestNeighbour. now rewrite Hmap.
Qed.

Lemma findNearestNeighbour_returns (x y : R) (map : Map) :
  landmark_list map <> [] ->
  exists lm, findNearestNeighbour x y map = Returns lm.
Proof.
  intros Hmap. unfold findNearestNeighbour.
  destruct (landmark_list map) as [|first rest]; [contradiction |].
  eexists. reflexivity.
Qed.

(** The inner loop of [updateWeights] returns when every step of it does. *)
Lemma for_each_acc_total {A B : Type} (body : B -> A -> M B) (v : list A) :
  (forall b e g, exists b' g', body b e g = Returns (b', g')) ->
  forall b g, exists b' g', for_each_acc body v b g = Returns (b', g').
Proof.
  intros Hbody. induction v as [|e v IH]; intros b g; simpl.
  - exists b, g. reflexivity.
  - destruct (Hbody b e g) as (b1 & g1 & Hstep).
    destruct (IH b1 g1) as (b2 & g2 & Hloop).
    exists b2, g2. unfold bind. now rewrite Hstep.
Qed.

(** C4, as stated, fails: with an empty map, one particle and one
    observation, [updateWeights] does not leave by [InvalidMap]; the read of
    [*map.landmark_list.begin()] is undefined behaviour. *)
Lemma updateWeights_empty_map_not_InvalidMap :
  landmark_list empty_map = []
  /\ updateWeights 50 (array2 1 1) [obs_left] empty_map origin_filter engine0
     = Undefined
  /\ updateWeights 50 (array2 1 1) [obs_left] empty_map origin_filter engine0
     <> Throws InvalidMap.
Proof.
  assert (Hrun : updateWeights 50 (array2 1 1) [obs_left] empty_map
                   origin_filter engine0 = Undefined).
  { unfold updateWeights, origin_filter, filter_of.
    cbn [particles for_each for_each_acc].
    rewrite findNearestNeighbour_empty by reflexivity. reflexivity. }
  split; [reflexivity |]. split; [exact Hrun |].
  rewrite Hrun. discriminate.
Qed.

(** C4, amended: the source raises no [InvalidMap].  With an empty map and
    at least one observation, [updateWeights] has undefined behaviour at the
    first association when the population is non-empty, and returns with an
    empty weight vector when there is no particle; in neither case does it
    leave by an exception. *)
Theorem updateWeights_empty_map (sensor_range : R) (std_landmark : nat -> R)
  (observations : list LandmarkObs) (map_landmarks : Map)
  (pf : ParticleFilter) (g : default_random_engine) :
  landmark_list map_landmarks = [] ->
  observations <> [] ->
  (particles pf <> [] ->
   updateWeights sensor_range std_landmark observations map_landmarks pf g
   = Undefined)
  /\ (particles pf = [] ->
      updateWeights sensor_range std_landmark observations map_landmarks pf g
      = Returns (mk_filter (num_particles pf) [] [], g))
  /\ (forall e,
      updateWeights sensor_range std_landmark observations map_landmarks pf g
      <> Throws e).
Proof.
  intros Hmap Hobs.
  destruct observations as [|obs observations]; [contradiction |].
  unfold updateWeights.
  destruct (particles pf) as [|particle ps].
  - cbn [for_each]. run_monad. cbn [List.map].
    repeat split; try reflexivity; try contradiction. discriminate.
  - cbn [for_each for_each_acc].
    rewrite (findNearestNeighbour_empty _ _ _ Hmap).
    repeat split; try reflexivity; try discriminate.
Qed.

Lemma updateWeights_empty_map_witness :
  landmark_list empty_map = []
  /\ [obs_left] <> []
  /\ updateWeights 50 (array2 1 1) [obs_left] empty_map origin_filter engine0
     = Undefined.
Proof.
  split; [reflexivity |]. split; [discriminate |].
  apply (updateWeights_empty_map 50 (array2 1 1) [obs_left] empty_map
           origin_filter engine0 eq_refl); discriminate.
Defined.

(** ** Every phase returns *)

Lemma resize_length {A : Type} (d : A) (n : nat) (v : list A) :
  List.length (resize d n v) = n.
Proof.
  unfold resize. rewrite length_app, length_firstn, repeat_length. lia.
Qed.

Lemma init_returns (x y theta : R) (std : nat -> R) (pf : ParticleFilter)
  (g : default_random_engine) :
  exists pf' g',
    init x y theta std pf g = Returns (pf', g')
    /\ List.length (particles pf') = 100%nat
    /\ num_particles pf' = 100%Z
    /\ weights pf' = weights pf.
Proof.
  unfold init. cbv zeta.
  match goal with |- context [for_each ?b ?v] =>
    destruct (for_each_total b v) with (g := g) as (ps & g' & Hloop & Hlen)
  end.
  - apply Forall_forall. intros e _ g0. run_monad. eauto.
  - rewrite resize_length in Hlen.
    eexists; exists g'. unfold bind at 1. rewrite Hloop.
    unfold ret. cbn [particles num_particles weights].
    repeat split; auto.
Qed.

Lemma prediction_returns (delta_t : R) (std_pos : nat -> R)
  (velocity yaw_rate : R) (pf : ParticleFilter) (g : default_random_engine) :
  exists pf' g',
    prediction delta_t std_pos velocity yaw_rate pf g = Returns (pf', g')
    /\ List.length (particles pf') = List.length (particles pf)
    /\ num_particles pf' = num_particles pf
    /\ weights pf' = weights pf.
Proof.
  unfold prediction. cbv zeta.
  destruct (Rgt_dec (Rabs yaw_rate) 1E-6);
    match goal with |- context [for_each ?b ?v] =>
      destruct (for_each_total b v) with (g := g) as (ps & g' & Hloop & Hlen);
        [ apply Forall_forall; intros e _ g0; run_monad; eauto
        | eexists; exists g'; unfold bind at 1; rewrite Hloop;
          unfold ret; cbn [particles num_particles weights];
          repeat split; auto ]
    end.
Qed.

Lemma updateWeights_returns (sensor_range : R) (std_landmark : nat -> R)
  (observations : list LandmarkObs) (map_landmarks : Map)
  (pf : ParticleFilter) (g : default_random_engine) :
  landmark_list map_landmarks <> [] ->
  exists pf' g',
    updateWeights sensor_range std_landmark observations map_landmarks pf g
    = Returns (pf', g')
    /\ List.length (particles pf') = List.length (particles pf)
    /\ num_particles pf' = num_particles pf
    /\ weights pf' = List.map Particle.weight (particles pf').
Proof.
  intros Hmap. unfold updateWeights.
  match goal with |- context [for_each ?b ?v] =>
    destruct (for_each_total b v) with (g := g) as (ps & g' & Hloop & Hlen)
  end.
  - apply Forall_forall. intros e _ g0.
    apply for_each_acc_total. intros b o g1.
    destruct (findNearestNeighbour_returns
                (Particle.x b + cos (Particle.theta b) * LandmarkObs.x o
                 - sin (Particle.theta b) * LandmarkObs.y o)
                (Particle.y b + sin (Particle.theta b) * LandmarkObs.x o
                 + cos (Particle.theta b) * LandmarkObs.y o)
                map_landmarks Hmap) as (lm & Hlm).
    rewrite Hlm. run_monad. eauto.
  - eexists; exists g'. unfold bind at 1. rewrite Hloop.
    unfold ret. cbn [particles num_particles weights].
    repeat split; auto.
Qed.

Lemma subscript_returns {A : Type} (v : list A) (i : nat) :
  (i < List.length v)%nat -> exists a, subscript v i = Returns a.
Proof.
  intros Hi. unfold subscript.
  destruct (nth_error v i) as [a |] eqn:Hnth; [eauto |].
  apply nth_error_None in Hnth. lia.
Qed.

Lemma resample_returns (pf : ParticleFilter) (g : default_random_engine) :
  (List.length (weights pf) <= List.length (particles pf))%nat ->
  exists pf' g',
    resample pf g = Returns (pf', g')
    /\ List.length (particles pf') = List.length (particles pf)
    /\ num_particles pf' = num_particles pf
    /\ weights pf' = weights pf.
Proof.
  intros Hw. unfold resample. cbv zeta.
  match goal with |- context [for_each ?b ?v] =>
    destruct (for_each_total b v) with (g := g) as (ps & g' & Hloop & Hlen)
  end.
  - apply Forall_forall. intros e He g0.
    unfold bind, discrete_distribution.
    destruct (subscript_returns (particles pf)
                (index_variates g0 (drawn g0)
                 mod Nat.max 1 (List.length (weights pf)))) as (p & Hp).
    + destruct (particles pf) as [|p0 ps0]; [| clear He].
      * simpl in He. contradiction.
      * assert (Hpos : (Nat.max 1 (List.length (weights pf)) <> 0)%nat) by lia.
        pose proof (Nat.mod_upper_bound (index_variates g0 (drawn g0)) _ Hpos).
        simpl List.length in *. lia.
    + rewrite Hp. unfold lift. eauto.
  - rewrite repeat_length in Hlen.
    eexists; exists g'. unfold bind at 1. rewrite Hloop.
    unfold ret. cbn [particles num_particles weights].
    repeat split; auto.
Qed.

(** C5, as stated, fails: [prediction] with [delta_t = -1] (and zero noise
    deviations) returns, and the particle has moved from the origin to
    [(-1, 0, 0)]. *)
Lemma prediction_accepts_negative_delta_t :
  -1 <= 0
  /\ exists pf' g',
       prediction (-1) (array3 0 0 0) 1 0 origin_filter engine0
       = Returns (pf', g')
       /\ pf' <> origin_filter.
Proof.
  split; [lra |].
  destruct (prediction_straight_line_exact (-1) 1 (array3 0 0 0) engine0
              eq_refl eq_refl eq_refl) as (pf' & g' & Hrun & Hpose).
  exists pf', g'. split; [exact Hrun |].
  intros Heq. rewrite Heq in Hpose.
  unfold origin_filter, filter_of, particle_at, pose in Hpose.
  cbn [particles List.map Particle.x Particle.y Particle.theta] in Hpose.
  injection Hpose as Hx. lra.
Qed.

(** ** Population size *)

Lemma run_phase_sized (ph : phase) (pf : ParticleFilter)
  (g : default_random_engine) :
  map_present ph -> sized pf ->
  exists pf' g', run_phase ph pf g = Returns (pf', g') /\ sized pf'.
Proof.
  intros Hph (Hlen & Hnum & Hw).
  destruct ph as [delta_t std_pos velocity yaw_rate
                 | sensor_range std_landmark observations map_landmarks | ];
    cbn [run_phase map_present] in *.
  - destruct (prediction_returns delta_t std_pos velocity yaw_rate pf g)
      as (pf' & g' & Hrun & Hlen' & Hnum' & Hw').
    exists pf', g'. split; [exact Hrun |].
    unfold sized. rewrite Hlen', Hnum', Hw'. auto.
  - destruct (updateWeights_returns sensor_range std_landmark observations
                map_landmarks pf g Hph) as (pf' & g' & Hrun & Hlen' & Hnum' & Hw').
    exists pf', g'. split; [exact Hrun |].
    unfold sized. rewrite Hw', length_map, Hlen', Hnum'.
    repeat split; auto.
  - destruct (resample_returns pf g Hw) as (pf' & g' & Hrun & Hlen' & Hnum' & Hw').
    exists pf', g'. split; [exact Hrun |].
    unfold sized. rewrite Hlen', Hnum', Hw'. auto.
Qed.

Lemma run_phases_sized (phs : list phase) :
  Forall map_present phs ->
  forall pf g, sized pf ->
    exists pf' g', run_phases phs pf g = Returns (pf', g') /\ sized pf'.
Proof.
  induction 1 as [|ph phs Hph _ IH]; intros pf g Hpf; simpl.
  - exists pf, g. split; [reflexivity | exact Hpf].
  - destruct (run_phase_sized ph pf g Hph Hpf) as (pf1 & g1 & Hstep & Hpf1).
    destruct (IH pf1 g1 Hpf1) as (pf2 & g2 & Hrest & Hpf2).
    exists pf2, g2. unfold bind. rewrite Hstep. auto.
Qed.

(** C6: after [init], whatever sequence of [prediction], [updateWeights]
    (against a map that has a landmark) and [resample] calls is made, every
    call returns and the population has the configured number of particles,
    100; and a [resample] that returns leaves a population of the size it
    found. *)
Theorem population_size_invariant (x y theta : R) (std : nat -> R)
  (pf0 : ParticleFilter) (g0 : default_random_engine) (phs : list phase) :
  (List.length (weights pf0) <= 100)%nat ->
  Forall map_present phs ->
  (exists pf g,
     (pf1 <- init x y theta std pf0 ;; run_phases phs pf1) g0 = Returns (pf, g)
     /\ List.length (particles pf) = Z.to_nat (num_particles pf)
     /\ num_particles pf = 100%Z)
  /\ (forall pf g pf' g',
        resample pf g = Returns (pf', g') ->
        List.length (particles pf') = List.length (particles pf)).
Proof.
  intros Hw0 Hphs. split.
  - destruct (init_returns x y theta std pf0 g0)
      as (pf1 & g1 & Hinit & Hlen & Hnum & Hw).
    assert (Hsized : sized pf1).
    { unfold sized. rewrite Hlen, Hnum, Hw. repeat split; auto. }
    destruct (run_phases_sized phs Hphs pf1 g1 Hsized)
      as (pf & g & Hrun & Hlen' & Hnum' & _).
    exists pf, g. unfold bind. rewrite Hinit.
    repeat split; assumption.
  - intros pf g pf' g' Hrun. unfold resample in Hrun. cbv zeta in Hrun.
    unfold bind at 1 in Hrun.
    match type of Hrun with context [for_each ?b ?v ?g] =>
      destruct (for_each b v g) as [[ps g1] | | ] eqn:Hloop; try discriminate
    end.
    apply for_each_length in Hloop. rewrite repeat_length in Hloop.
    unfold ret in Hrun. injection Hrun as <- _. exact Hloop.
Qed.

Lemma population_size_invariant_witness :
  (List.length (weights fresh_filter) <= 100)%nat
  /\ Forall map_present one_cycle
  /\ exists pf g,
       (pf1 <- init 0 0 0 (array3 2 2 1) fresh_filter ;;
        run_phases one_cycle pf1) engine0 = Returns (pf, g)
       /\ List.length (particles pf) = Z.to_nat (num_particles pf)
       /\ num_particles pf = 100%Z.
Proof.
  assert (Hw : (List.length (weights fresh_filter) <= 100)%nat)
    by (simpl; lia).
  assert (Hphs : Forall map_present one_cycle)
    by (repeat constructor; discriminate).
  split; [exact Hw |]. split; [exact Hphs |].
  exact (proj1 (population_size_invariant 0 0 0 (array3 2 2 1) fresh_filter
                  engine0 one_cycle Hw Hphs)).
Defined.

(** ** Frame properties *)

(** C7: two calls of [updateWeights] that differ only in [sensor_range] have
    the same outcome: the same particles with the same weights, the same
    weight vector, the same generator. *)
Theorem updateWeights_ignores_sensor_range (sensor_range sensor_range' : R)
  (std_landmark : nat -> R) (observations : list LandmarkObs)
  (map_landmarks : Map) (pf : ParticleFilter) (g : default_random_engine) :
  updateWeights sensor_range std_landmark observations map_landmarks pf g
  = updateWeights sensor_range' std_landmark observations map_landmarks pf g.
Proof. reflexivity. Qed.

(** C9: [dataAssociation] returns with its observations, the filter and the
    generator as it found them. *)
Theorem dataAssociation_no_op (predicted observations : list LandmarkObs)
  (pf : ParticleFilter) (g : default_random_engine) :
  dataAssociation predicted observations pf g
  = Returns ((observations, pf), g).
Proof. reflexivity. Qed.

(** ** Rendering *)

(** On the empty string [s.length() - 1] wraps around to the largest
    [size_t]. *)
Lemma size_t_sub_wraps :
  size_t_sub (string_length "") 1 = 18446744073709551615%Z.
Proof. reflexivity. Qed.

(** [substr(0, n)] of the empty string is the empty string for every count:
    position 0 is not beyond its end. *)
Lemma substr_empty (n : Z) : substr "" 0 n = Returns ""%string.
Proof.
  unfold substr. cbn [string_length String.length Z.of_nat Z.ltb Z.compare].
  destruct (Z.to_nat (Z.min n (0 - 0))); reflexivity.
Qed.

(** C10: for a particle whose list is empty, [getAssociations] and
    [getSenseCoord] (for ["X"] and for any other coordinate name) return the
    empty string; [substr] does not throw. *)
Theorem empty_lists_render_empty (format_float : R -> string)
  (best : Particle) (coord : string) :
  (Particle.associations best = [] ->
   getAssociations best = Returns ""%string)
  /\ (Particle.sense_x best = [] ->
      getSenseCoord format_float best "X" = Returns ""%string)
  /\ (Particle.sense_y best = [] -> String.eqb coord "X" = false ->
      getSenseCoord format_float best coord = Returns ""%string).
Proof.
  split; [| split].
  - intros Hempty. unfold getAssociations. rewrite Hempty.
    cbn [copy_ostream]. apply substr_empty.
  - intros Hempty. unfold getSenseCoord. rewrite String.eqb_refl, Hempty.
    cbn [copy_ostream]. apply substr_empty.
  - intros Hempty Hcoord. unfold getSenseCoord. rewrite Hcoord, Hempty.
    cbn [copy_ostream]. apply substr_empty.
Qed.

Lemma empty_lists_render_empty_witness :
  getAssociations Particle_default = Returns ""%string
  /\ getSenseCoord (fun _ => "0"%string) Particle_default "X"
     = Returns ""%string
  /\ getSenseCoord (fun _ => "0"%string) Particle_default "Y"
     = Returns ""%string.
Proof.
  destruct (empty_lists_render_empty (fun _ => "0"%string) Particle_default "Y")
    as (Hassoc & Hx & Hy).
  split; [exact (Hassoc eq_refl) |].
  split; [exact (Hx eq_refl) | exact (Hy eq_refl eq_refl)].
Defined.

(** * Further properties *)

(** ** The generator and the loops *)

Lemma after_draws_fields (k : nat) (g : default_random_engine) :
  normal_variates (after_draws k g) = normal_variates g
  /\ index_variates (after_draws k g) = index_variates g
  /\ drawn (after_draws k g) = (drawn g + k)%nat.
Proof.
  unfold after_draws. induction k as [|k (Hn & Hi & Hd)]; simpl.
  - repeat split; auto.
  - rewrite Hd. repeat split; auto; lia.
Qed.

Lemma after_draws_succ_r (k n : nat) (g : default_random_engine) :
  after_draws (k * S n) g = after_draws (k * n) (after_draws k g).
Proof.
  unfold after_draws. rewrite Nat.mul_succ_r. apply Nat.iter_add.
Qed.

(** A loop whose body draws [k] times and rewrites the element by [F], a
    function of the generator it meets and of the element: the [i]-th
    element is rewritten with the generator as it is after [k * i] draws. *)
Lemma for_each_nth {A : Type} (body : A -> M A)
  (F : default_random_engine -> A -> A) (k : nat) :
  (forall e g, body e g = Returns (F g e, after_draws k g)) ->
  forall v g, exists v',
    for_each body v g = Returns (v', after_draws (k * List.length v) g)
    /\ List.length v' = List.length v
    /\ forall i p, nth_error v' i = Some p ->
         exists e, nth_error v i = Some e
                   /\ p = F (after_draws (k * i) g) e.
Proof.
  intros Hbody. induction v as [|e v IH]; intros g.
  - exists []. simpl. rewrite Nat.mul_0_r. repeat split; auto.
    intros [|i] p Hp; discriminate.
  - destruct (IH (after_draws k g)) as (v' & Hloop & Hlen & Hnth).
    exists (F g e :: v'). cbn [for_each List.length].
    unfold bind at 1. rewrite Hbody. unfold bind at 1. rewrite Hloop.
    rewrite after_draws_succ_r. repeat split; [simpl; congruence |].
    intros [|i] p Hp.
    + injection Hp as <-. exists e. rewrite Nat.mul_0_r. split; reflexivity.
    + destruct (Hnth i p Hp) as (e' & He' & ->).
      exists e'. rewrite after_draws_succ_r. split; auto.
Qed.

(** ** Initialisation *)

Lemma init_spec (x y theta : R) (std : nat -> R) (pf : ParticleFilter)
  (g : default_random_engine) :
  exists ps,
    init x y theta std pf g
    = Returns (mk_filter 100 ps (weights pf), after_draws 300 g)
    /\ List.length ps = 100%nat
    /\ forall i p, nth_error ps i = Some p ->
         exists e,
           nth_error (resize Particle_default 100 (particles pf)) i = Some e
           /\ p = Particle.mk (Particle.id e)
                    (x + std 0%nat * normal_variates g (drawn g + 3 * i))
                    (y + std 1%nat * normal_variates g (drawn g + 3 * i + 1))
                    (theta + std 2%nat * normal_variates g (drawn g + 3 * i + 2))
                    1 (Particle.associations e)
                    (Particle.sense_x e) (Particle.sense_y e).
Proof.
  unfold init. cbv zeta. change (Z.to_nat 100) with 100%nat.
  match goal with |- context [for_each ?b ?v] =>
    destruct (for_each_nth b
                (fun g' e =>
                   Particle.mk (Particle.id e)
                     (x + std 0%nat * normal_variates g' (drawn g'))
                     (y + std 1%nat * normal_variates g' (S (drawn g')))
                     (theta + std 2%nat * normal_variates g' (S (S (drawn g'))))
                     1 (Particle.associations e)
                     (Particle.sense_x e) (Particle.sense_y e)) 3
                (fun e g0 => eq_refl) v g)
      as (ps & Hloop & Hlen & Hnth)
  end.
  rewrite resize_length in Hloop, Hlen.
  exists ps. unfold bind at 1. rewrite Hloop. unfold ret.
  split; [reflexivity |]. split; [exact Hlen |].
  intros i p Hp. destruct (Hnth i p Hp) as (e & He & ->).
  exists e. split; [exact He |].
  destruct (after_draws_fields (3 * i) g) as (Hn & _ & Hd).
  rewrite Hn, Hd. repeat f_equal; lia.
Qed.

(** X1: [init] returns for every input, with a population of 100 particles
    of weight 1 whose [i]-th particle has its three coordinates drawn with
    the variates [3i], [3i+1] and [3i+2] after those already drawn, each
    scaled by its deviation and added to the estimate; 300 variates are
    consumed and the weight vector is left as it was. *)
Theorem init_particle_poses (x y theta : R) (std : nat -> R)
  (pf : ParticleFilter) (g : default_random_engine) :
  exists pf',
    init x y theta std pf g = Returns (pf', after_draws 300 g)
    /\ List.length (particles pf') = 100%nat
    /\ weights pf' = weights pf
    /\ forall i, (i < 100)%nat ->
         exists p,
           nth_error (particles pf') i = Some p
           /\ pose p
              = (x + std 0%nat * normal_variates g (drawn g + 3 * i),
                 y + std 1%nat * normal_variates g (drawn g + 3 * i + 1),
                 theta + std 2%nat * normal_variates g (drawn g + 3 * i + 2))
           /\ Particle.weight p = 1.
Proof.
  destruct (init_spec x y theta std pf g) as (ps & Hrun & Hlen & Hnth).
  eexists. split; [exact Hrun |]. cbn [particles weights].
  split; [exact Hlen |]. split; [reflexivity |].
  intros i Hi.
  destruct (nth_error ps i) as [p |] eqn:Hp.
  - exists p. split; [reflexivity |].
    destruct (Hnth i p Hp) as (e & _ & ->). split; reflexivity.
  - apply nth_error_None in Hp. lia.
Qed.

Lemma init_particle_poses_witness :
  exists pf',
    init 4 5 1 (array3 2 2 1) fresh_filter engine0
    = Returns (pf', after_draws 300 engine0)
    /\ exists p, nth_error (particles pf') 7 = Some p
                 /\ pose p = (4 + 2 * 0, 5 + 2 * 0, 1 + 1 * 0)
                 /\ Particle.weight p = 1.
Proof.
  destruct (init_particle_poses 4 5 1 (array3 2 2 1) fresh_filter engine0)
    as (pf' & Hrun & _ & _ & Hnth).
  exists pf'. split; [exact Hrun |].
  apply (Hnth 7%nat). lia.
Defined.

(** X2: with the three deviations zero, [init] puts every particle exactly
    on the estimate. *)
Theorem init_zero_deviation (x y theta : R) (std : nat -> R)
  (pf : ParticleFilter) (g : default_random_engine) :
  std 0%nat = 0 -> std 1%nat = 0 -> std 2%nat = 0 ->
  exists pf' g',
    init x y theta std pf g = Returns (pf', g')
    /\ Forall (fun p => pose p = (x, y, theta)) (particles pf').
Proof.
  intros H0 H1 H2.
  destruct (init_spec x y theta std pf g) as (ps & Hrun & Hlen & Hnth).
  eexists; eexists. split; [exact Hrun |]. cbn [particles].
  apply Forall_forall. intros p Hin.
  apply In_nth_error in Hin. destruct Hin as (i & Hi).
  destruct (Hnth i p Hi) as (e & _ & ->).
  unfold pose. cbn [Particle.x Particle.y Particle.theta].
  rewrite H0, H1, H2. split_pose; ring.
Qed.

Lemma init_zero_deviation_witness :
  exists pf' g',
    init 4 5 1 (array3 0 0 0) fresh_filter engine0 = Returns (pf', g')
    /\ Forall (fun p => pose p = (4, 5, 1)) (particles pf').
Proof.
  exact (init_zero_deviation 4 5 1 (array3 0 0 0) fresh_filter engine0
           eq_refl eq_refl eq_refl).
Defined.

(** X3: [init] on a filter that already holds particles redraws the poses
    and keeps, for each of the first 100 particles, its id and its
    association lists; slots beyond the old population start with none. *)
Theorem init_keeps_bookkeeping (x y theta : R) (std : nat -> R)
  (pf : ParticleFilter) (g : default_random_engine) :
  exists pf' g',
    init x y theta std pf g = Returns (pf', g')
    /\ (forall i old, (i < 100)%nat -> nth_error (particles pf) i = Some old ->
          exists p, nth_error (particles pf') i = Some p
                    /\ bookkeeping p = bookkeeping old)
    /\ (forall i p, (List.length (particles pf) <= i)%nat ->
          nth_error (particles pf') i = Some p ->
          bookkeeping p = (0%Z, [], [], [])).
Proof.
  destruct (init_spec x y theta std pf g) as (ps & Hrun & Hlen & Hnth).
  eexists; eexists. split; [exact Hrun |]. cbn [particles]. split.
  - intros i old Hi Hold.
    destruct (nth_error ps i) as [p |] eqn:Hp.
    + exists p. split; [reflexivity |].
      destruct (Hnth i p Hp) as (e & He & ->).
      unfold resize in He. rewrite nth_error_app1 in He.
      * rewrite nth_error_firstn in He.
        destruct (Nat.ltb_spec i 100); [| lia].
        rewrite Hold in He. injection He as <-. reflexivity.
      * rewrite length_firstn.
        assert (i < List.length (particles pf))%nat
          by (apply nth_error_Some; congruence).
        lia.
    + apply nth_error_None in Hp. lia.
  - intros i p Hi Hp.
    destruct (Hnth i p Hp) as (e & He & ->).
    unfold resize in He. rewrite nth_error_app2 in He
      by (rewrite length_firstn; lia).
    apply nth_error_In, repeat_spec in He. subst e. reflexivity.
Qed.

Lemma init_keeps_bookkeeping_witness :
  exists pf' g',
    init 0 0 0 (array3 1 1 1) tagged_filter engine0 = Returns (pf', g')
    /\ exists p, nth_error (particles pf') 0 = Some p
                 /\ bookkeeping p = (9%Z, [7%Z; 12%Z], [1; 2], [5; 6]).
Proof.
  destruct (init_keeps_bookkeeping 0 0 0 (array3 1 1 1) tagged_filter engine0)
    as (pf' & g' & Hrun & Hold & _).
  exists pf', g'. split; [exact Hrun |].
  apply (Hold 0%nat tagged_particle); [lia | reflexivity].
Defined.

(** ** Prediction, particle by particle *)

Lemma prediction_spec (delta_t : R) (std_pos : nat -> R)
  (velocity yaw_rate : R) (pf : ParticleFilter) (g : default_random_engine) :
  exists ps,
    prediction delta_t std_pos velocity yaw_rate pf g
    = Returns (mk_filter (num_particles pf) ps (weights pf),
               after_draws (3 * List.length (particles pf)) g)
    /\ List.length ps = List.length (particles pf)
    /\ forall i p, nth_error ps i = Some p ->
         exists e,
           nth_error (particles pf) i = Some e
           /\ pose p
              = (Particle.x (motion_update delta_t velocity yaw_rate e)
                 + std_pos 0%nat * normal_variates g (drawn g + 3 * i),
                 Particle.y (motion_update delta_t velocity yaw_rate e)
                 + std_pos 1%nat * normal_variates g (drawn g + 3 * i + 1),
                 Particle.theta (motion_update delta_t velocity yaw_rate e)
                 + std_pos 2%nat * normal_variates g (drawn g + 3 * i + 2))
           /\ Particle.weight p = Particle.weight e
           /\ bookkeeping p = bookkeeping e.
Proof.
  unfold prediction, motion_update. cbv zeta.
  destruct (Rgt_dec (Rabs yaw_rate) 1E-6);
    match goal with |- context [for_each ?b ?v] =>
      destruct (for_each_nth b (fun g' e => match b e g' with
                                            | Returns (e', _) => e'
                                            | _ => e
                                            end) 3
                  (fun e g0 => eq_refl) v g)
        as (ps & Hloop & Hlen & Hnth)
    end;
    exists ps; unfold bind at 1; rewrite Hloop; unfold ret;
    (split; [reflexivity |]); (split; [exact Hlen |]);
    intros i p Hp; destruct (Hnth i p Hp) as (e & He & ->);
    exists e; (split; [exact He |]);
    destruct (after_draws_fields (3 * i) g) as (Hn & _ & Hd);
    run_monad; unfold pose, bookkeeping, arc_update, straight_update;
    cbn [Particle.x Particle.y Particle.theta Particle.weight Particle.id
         Particle.associations Particle.sense_x Particle.sense_y
         advance normal_variates drawn];
    rewrite Hn, Hd;
    replace (S (drawn g + 3 * i)) with (drawn g + 3 * i + 1)%nat by lia;
    replace (S (drawn g + 3 * i + 1)) with (drawn g + 3 * i + 2)%nat by lia;
    (split; [split_pose; ring |]); split; reflexivity.
Qed.

(** X4: [prediction] returns for every input; it gives the [i]-th particle
    the pose of the motion update plus the deviations times the variates
    [3i], [3i+1], [3i+2], keeps its weight, id and association lists, leaves
    the weight vector and [num_particles] alone and consumes three variates
    per particle. *)
Theorem prediction_particle_poses (delta_t : R) (std_pos : nat -> R)
  (velocity yaw_rate : R) (pf : ParticleFilter) (g : default_random_engine) :
  exists pf',
    prediction delta_t std_pos velocity yaw_rate pf g
    = Returns (pf', after_draws (3 * List.length (particles pf)) g)
    /\ num_particles pf' = num_particles pf
    /\ weights pf' = weights pf
    /\ forall i old, nth_error (particles pf) i = Some old ->
         exists p,
           nth_error (particles pf') i = Some p
           /\ pose p
              = (Particle.x (motion_update delta_t velocity yaw_rate old)
                 + std_pos 0%nat * normal_variates g (drawn g + 3 * i),
                 Particle.y (motion_update delta_t velocity yaw_rate old)
                 + std_pos 1%nat * normal_variates g (drawn g + 3 * i + 1),
                 Particle.theta (motion_update delta_t velocity yaw_rate old)
                 + std_pos 2%nat * normal_variates g (drawn g + 3 * i + 2))
           /\ Particle.weight p = Particle.weight old
           /\ bookkeeping p = bookkeeping old.
Proof.
  destruct (prediction_spec delta_t std_pos velocity yaw_rate pf g)
    as (ps & Hrun & Hlen & Hnth).
  eexists. split; [exact Hrun |]. cbn [particles weights num_particles].
  split; [reflexivity |]. split; [reflexivity |].
  intros i old Hold.
  destruct (nth_error ps i) as [p |] eqn:Hp.
  - exists p. split; [reflexivity |].
    destruct (Hnth i p Hp) as (e & He & Hrest).
    rewrite Hold in He. injection He as <-. exact Hrest.
  - apply nth_error_None in Hp.
    assert (i < List.length (particles pf))%nat
      by (apply nth_error_Some; congruence).
    lia.
Qed.

Lemma prediction_particle_poses_witness :
  exists pf',
    prediction 1 (array3 1 1 1) 2 0 tagged_filter engine0
    = Returns (pf', after_draws 3 engine0)
    /\ exists p, nth_error (particles pf') 0 = Some p
                 /\ Particle.weight p = 1 / 2
                 /\ bookkeeping p = (9%Z, [7%Z; 12%Z], [1; 2], [5; 6]).
Proof.
  destruct (prediction_particle_poses 1 (array3 1 1 1) 2 0 tagged_filter
              engine0) as (pf' & Hrun & _ & _ & Hnth).
  exists pf'. split; [exact Hrun |].
  destruct (Hnth 0%nat tagged_particle eq_refl) as (p & Hp & _ & Hw & Hb).
  exists p. auto.
Defined.

Lemma arc_update_zero (velocity yaw_rate : R) (p : Particle) :
  arc_update 0 velocity yaw_rate p = p.
Proof.
  destruct p. unfold arc_update; simpl.
  rewrite Rmult_0_r, Rplus_0_r. f_equal; unfold Rdiv; ring.
Qed.

Lemma straight_update_zero (velocity yaw_rate : R) (p : Particle) :
  straight_update 0 velocity yaw_rate p = p.
Proof.
  destruct p. unfold straight_update; simpl. f_equal; ring.
Qed.

Lemma map_id_ext {A : Type} (f : A -> A) (l : list A) :
  (forall a, f a = a) -> List.map f l = l.
Proof.
  intros Hf. induction l as [|a l IH]; simpl; [reflexivity |].
  now rewrite Hf, IH.
Qed.

(** X5: with zero noise deviations and [delta_t = 0], [prediction] hands
    the filter back as it was, in either branch. *)
Theorem prediction_zero_delta_t (std_pos : nat -> R) (velocity yaw_rate : R)
  (pf : ParticleFilter) (g : default_random_engine) :
  std_pos 0%nat = 0 -> std_pos 1%nat = 0 -> std_pos 2%nat = 0 ->
  exists g', prediction 0 std_pos velocity yaw_rate pf g = Returns (pf, g').
Proof.
  intros H0 H1 H2.
  destruct (prediction_noiseless 0 std_pos velocity yaw_rate pf g H0 H1 H2)
    as (g' & Hrun).
  exists g'. rewrite Hrun. f_equal. f_equal.
  rewrite map_id_ext; [now destruct pf |].
  intros p. destruct (Rgt_dec (Rabs yaw_rate) 1E-6);
    [apply arc_update_zero | apply straight_update_zero].
Qed.

Lemma prediction_zero_delta_t_witness :
  exists g',
    prediction 0 (array3 0 0 0) 3 2 tagged_filter engine0
    = Returns (tagged_filter, g').
Proof.
  exact (prediction_zero_delta_t (array3 0 0 0) 3 2 tagged_filter engine0
           eq_refl eq_refl eq_refl).
Defined.

Lemma arc_update_compose (t1 t2 velocity yaw_rate : R) (p : Particle) :
  arc_update t2 velocity yaw_rate (arc_update t1 velocity yaw_rate p)
  = arc_update (t1 + t2) velocity yaw_rate p.
Proof.
  unfold arc_update. cbn [Particle.x Particle.y Particle.theta Particle.id
    Particle.weight Particle.associations Particle.sense_x Particle.sense_y].
  replace (Particle.theta p + yaw_rate * t1 + yaw_rate * t2)
    with (Particle.theta p + yaw_rate * (t1 + t2)) by ring.
  f_equal; unfold Rdiv; ring.
Qed.

Lemma straight_update_compose (t1 t2 velocity : R) (p : Particle) :
  straight_update t2 velocity 0 (straight_update t1 velocity 0 p)
  = straight_update (t1 + t2) velocity 0 p.
Proof.
  unfold straight_update. cbn [Particle.x Particle.y Particle.theta Particle.id
    Particle.weight Particle.associations Particle.sense_x Particle.sense_y].
  replace (Particle.theta p + 0 * t1) with (Particle.theta p) by ring.
  f_equal; ring.
Qed.

(** X6: over the reals, with zero noise deviations and a yaw rate that is
    zero or above the threshold in magnitude, two successive calls of
    [prediction] over [t1] and [t2] leave the population that one call over
    [t1 + t2] leaves.  (In double arithmetic the two agree up to rounding
    only.) *)
Theorem prediction_composes (t1 t2 : R) (std_pos : nat -> R)
  (velocity yaw_rate : R) (pf pf1 pf2 : ParticleFilter)
  (g g1 g2 : default_random_engine) :
  std_pos 0%nat = 0 -> std_pos 1%nat = 0 -> std_pos 2%nat = 0 ->
  Rabs yaw_rate > 1E-6 \/ yaw_rate = 0 ->
  prediction t1 std_pos velocity yaw_rate pf g = Returns (pf1, g1) ->
  prediction t2 std_pos velocity yaw_rate pf1 g1 = Returns (pf2, g2) ->
  exists g',
    prediction (t1 + t2) std_pos velocity yaw_rate pf g = Returns (pf2, g').
Proof.
  intros H0 H1 H2 Hrate Hfirst Hsecond.
  destruct (prediction_noiseless t1 std_pos velocity yaw_rate pf g H0 H1 H2)
    as (ga & Ha).
  rewrite Ha in Hfirst. injection Hfirst as <- <-.
  match type of Hsecond with
  | prediction _ _ _ _ ?pf1 _ = _ =>
      destruct (prediction_noiseless t2 std_pos velocity yaw_rate pf1 ga
                  H0 H1 H2) as (gb & Hb)
  end.
  rewrite Hb in Hsecond. injection Hsecond as <- <-.
  destruct (prediction_noiseless (t1 + t2) std_pos velocity yaw_rate pf g
              H0 H1 H2) as (gc & Hc).
  exists gc. rewrite Hc. cbn [particles num_particles weights].
  f_equal. f_equal. f_equal. rewrite map_map. apply map_ext. intros p.
  destruct (Rgt_dec (Rabs yaw_rate) 1E-6) as [Hturn | Hstraight].
  - symmetry. apply arc_update_compose.
  - destruct Hrate as [Hturn | ->]; [contradiction |].
    symmetry. apply straight_update_compose.
Qed.

Lemma prediction_composes_witness :
  exists pf1 g1 pf2 g2 g',
    prediction 1 (array3 0 0 0) 2 1 tagged_filter engine0 = Returns (pf1, g1)
    /\ prediction 3 (array3 0 0 0) 2 1 pf1 g1 = Returns (pf2, g2)
    /\ prediction (1 + 3) (array3 0 0 0) 2 1 tagged_filter engine0
       = Returns (pf2, g').
Proof.
  destruct (prediction_returns 1 (array3 0 0 0) 2 1 tagged_filter engine0)
    as (pf1 & g1 & Hfirst & _).
  destruct (prediction_returns 3 (array3 0 0 0) 2 1 pf1 g1)
    as (pf2 & g2 & Hsecond & _).
  assert (Hrate : Rabs 1 > 1E-6 \/ 1 = 0) by (left; rewrite Rabs_R1; lra).
  destruct (prediction_composes 1 3 (array3 0 0 0) 2 1 tagged_filter pf1 pf2
              engine0 g1 g2 eq_refl eq_refl eq_refl Hrate Hfirst Hsecond)
    as (g' & Hboth).
  exists pf1, g1, pf2, g2, g'. auto.
Defined.

Lemma chord_identity (a b : R) :
  (sin a - sin b) * (sin a - sin b) + (cos a - cos b) * (cos a - cos b)
  = 2 * (1 - cos (a - b)).
Proof.
  rewrite cos_minus.
  pose proof (sin2_cos2 a) as Ha. pose proof (sin2_cos2 b) as Hb.
  unfold Rsqr in Ha, Hb. nra.
Qed.

(** X7: over the reals, with zero noise deviations, [prediction] displaces
    each particle by a distance that depends on the controls alone: the
    squared displacement is [(v * delta_t)^2] in the straight branch and
    [2 (v/w)^2 (1 - cos (w * delta_t))], the squared chord of a circle of
    radius [|v/w|], in the turning branch.  (In double arithmetic the
    equations hold up to rounding only.) *)
Theorem prediction_displacement (delta_t : R) (std_pos : nat -> R)
  (velocity yaw_rate : R) (pf pf' : ParticleFilter)
  (g g' : default_random_engine) (i : nat) (old new : Particle) :
  std_pos 0%nat = 0 -> std_pos 1%nat = 0 -> std_pos 2%nat = 0 ->
  prediction delta_t std_pos velocity yaw_rate pf g = Returns (pf', g') ->
  nth_error (particles pf) i = Some old ->
  nth_error (particles pf') i = Some new ->
  (Particle.x new - Particle.x old) * (Particle.x new - Particle.x old)
  + (Particle.y new - Particle.y old) * (Particle.y new - Particle.y old)
  = if Rgt_dec (Rabs yaw_rate) 1E-6
    then 2 * (velocity / yaw_rate) * (velocity / yaw_rate)
         * (1 - cos (yaw_rate * delta_t))
    else (velocity * delta_t) * (velocity * delta_t).
Proof.
  intros H0 H1 H2 Hrun Hold Hnew.
  destruct (prediction_noiseless delta_t std_pos velocity yaw_rate pf g
              H0 H1 H2) as (ga & Ha).
  rewrite Ha in Hrun. injection Hrun as <- _.
  cbn [particles] in Hnew. rewrite nth_error_map, Hold in Hnew.
  injection Hnew as <-.
  destruct (Rgt_dec (Rabs yaw_rate) 1E-6) as [Hturn | Hstraight].
  - assert (Hw : yaw_rate <> 0).
    { intros ->. rewrite Rabs_R0 in Hturn. lra. }
    unfold arc_update. cbn [Particle.x Particle.y].
    pose proof (chord_identity (Particle.theta old + yaw_rate * delta_t)
                  (Particle.theta old)) as Hchord.
    replace (Particle.theta old + yaw_rate * delta_t - Particle.theta old)
      with (yaw_rate * delta_t) in Hchord by ring.
    transitivity
      (velocity / yaw_rate * (velocity / yaw_rate)
       * ((sin (Particle.theta old + yaw_rate * delta_t)
           - sin (Particle.theta old))
          * (sin (Particle.theta old + yaw_rate * delta_t)
             - sin (Particle.theta old))
          + (cos (Particle.theta old + yaw_rate * delta_t)
             - cos (Particle.theta old))
            * (cos (Particle.theta old + yaw_rate * delta_t)
               - cos (Particle.theta old)))).
    + field. exact Hw.
    + rewrite Hchord. ring.
  - unfold straight_update. cbn [Particle.x Particle.y].
    pose proof (sin2_cos2 (Particle.theta old)) as Hunit.
    unfold Rsqr in Hunit. nra.
Qed.

Lemma prediction_displacement_witness :
  exists pf' g' new,
    prediction 2 (array3 0 0 0) 3 0 tagged_filter engine0 = Returns (pf', g')
    /\ nth_error (particles pf') 0 = Some new
    /\ (Particle.x new - 3) * (Particle.x new - 3)
       + (Particle.y new - 4) * (Particle.y new - 4)
       = (3 * 2) * (3 * 2).
Proof.
  destruct (prediction_spec 2 (array3 0 0 0) 3 0 tagged_filter engine0)
    as (ps & Hrun & Hlen & _).
  destruct ps as [|new ps]; [discriminate Hlen |].
  eexists; eexists; exists new.
  split; [exact Hrun |]. split; [reflexivity |].
  pose proof (prediction_displacement 2 (array3 0 0 0) 3 0 tagged_filter _
                engine0 _ 0 tagged_particle new
                eq_refl eq_refl eq_refl Hrun eq_refl eq_refl) as Hd.
  destruct (Rgt_dec (Rabs 0) 1E-6) as [Hturn | _].
  - exfalso. rewrite Rabs_R0 in Hturn. lra.
  - exact Hd.
Defined.

(** ** Nearest neighbour, membership *)

(** X8: on a map that has a landmark, [findNearestNeighbour] returns, and
    what it returns is a landmark of the map. *)
Theorem findNearestNeighbour_member (x y : R) (map : Map) :
  landmark_list map <> [] ->
  exists lm, findNearestNeighbour x y map = Returns lm
             /\ In lm (landmark_list map).
Proof.
  intros Hmap. unfold findNearestNeighbour.
  destruct (landmark_list map) as [|first rest]; [contradiction |].
  eexists. split; [reflexivity |].
  destruct (findNearestNeighbour_loop_spec x y (first :: rest) 1E9 first)
    as [[-> _] | (pre & lm & post & Hrest & -> & _)].
  - now left.
  - rewrite Hrest. apply in_or_app. right. now left.
Qed.

Lemma findNearestNeighbour_member_witness :
  landmark_list far_map <> []
  /\ exists lm, findNearestNeighbour 7 8 far_map = Returns lm
                /\ In lm (landmark_list far_map).
Proof.
  assert (Hmap : landmark_list far_map <> []) by discriminate.
  split; [exact Hmap |].
  exact (findNearestNeighbour_member 7 8 far_map Hmap).
Defined.

(** ** Weighting, particle by particle *)

Lemma for_each_map_pure {A : Type} (body : A -> M A) (f : A -> A)
  (v : list A) (g : default_random_engine) :
  (forall e, body e g = Returns (f e, g)) ->
  for_each body v g = Returns (List.map f v, g).
Proof.
  intros Hbody. induction v as [|e v IH]; simpl; [reflexivity |].
  unfold bind at 1. rewrite Hbody. unfold bind at 1. now rewrite IH.
Qed.

(** The inner loop against a map with a first landmark multiplies the
    weight by the product of the values of [P]. *)
Lemma updateWeights_inner_spec (std_landmark : nat -> R)
  (map_landmarks : Map) first rest (observations : list LandmarkObs) :
  landmark_list map_landmarks = first :: rest ->
  forall (b : Particle) (g : default_random_engine),
    for_each_acc (fun particle obs =>
        lm <- lift (findNearestNeighbour
                      (Particle.x particle
                       + (cos (Particle.theta particle) * LandmarkObs.x obs)
                       - (sin (Particle.theta particle) * LandmarkObs.y obs))
                      (Particle.y particle
                       + (sin (Particle.theta particle) * LandmarkObs.x obs)
                       + (cos (Particle.theta particle) * LandmarkObs.y obs))
                      map_landmarks) ;;
        ret (Particle.mk (Particle.id particle) (Particle.x particle)
               (Particle.y particle) (Particle.theta particle)
               (Particle.weight particle
                * updateWeights_P std_landmark
                    (Particle.x particle
                     + (cos (Particle.theta particle) * LandmarkObs.x obs)
                     - (sin (Particle.theta particle) * LandmarkObs.y obs))
                    (Particle.y particle
                     + (sin (Particle.theta particle) * LandmarkObs.x obs)
                     + (cos (Particle.theta particle) * LandmarkObs.y obs))
                    lm)
               (Particle.associations particle)
               (Particle.sense_x particle) (Particle.sense_y particle)))
      observations b g
    = Returns (with_weight b
                 (Particle.weight b
                  * weight_product std_landmark first rest b observations), g).
Proof.
  intros Hmap. induction observations as [|obs observations IH]; intros b g.
  - simpl. unfold ret, with_weight. destruct b; simpl.
    do 2 f_equal. f_equal. ring.
  - cbn [for_each_acc]. unfold bind at 1. unfold bind at 1.
    unfold findNearestNeighbour at 1. rewrite Hmap. unfold lift at 1.
    unfold ret at 1. rewrite <- Hmap. rewrite IH.
    unfold with_weight, weight_product, observation_P.
    cbn [Particle.id Particle.x Particle.y Particle.theta Particle.weight
         Particle.associations Particle.sense_x Particle.sense_y fold_right].
    rewrite Hmap. do 2 f_equal. f_equal. ring.
Qed.

Lemma updateWeights_spec (sensor_range : R) (std_landmark : nat -> R)
  (observations : list LandmarkObs) (map_landmarks : Map) first rest
  (pf : ParticleFilter) (g : default_random_engine) :
  landmark_list map_landmarks = first :: rest ->
  updateWeights sensor_range std_landmark observations map_landmarks pf g
  = Returns
      (mk_filter (num_particles pf)
         (List.map (fun p => with_weight p
                               (weight_product std_landmark first rest p
                                  observations))
            (particles pf))
         (List.map (fun p => weight_product std_landmark first rest p
                               observations)
            (particles pf)), g).
Proof.
  intros Hmap. unfold updateWeights. cbv zeta. unfold bind at 1.
  match goal with |- context [for_each ?b ?v] =>
    rewrite (for_each_map_pure b
               (fun p => with_weight p
                           (weight_product std_landmark first rest p
                              observations)) v g)
  end.
  - unfold ret. rewrite map_map. reflexivity.
  - intros e.
    rewrite (updateWeights_inner_spec std_landmark map_landmarks first rest
               observations Hmap).
    unfold with_weight, weight_product, observation_P.
    cbn [Particle.id Particle.x Particle.y Particle.theta Particle.weight
         Particle.associations Particle.sense_x Particle.sense_y].
    do 2 f_equal. f_equal. ring.
Qed.

(** Without a landmark and with an observation, the call depends on the
    population alone. *)
Lemma updateWeights_no_landmark (sensor_range : R) (std_landmark : nat -> R)
  (obs : LandmarkObs) (observations : list LandmarkObs) (map_landmarks : Map)
  (pf : ParticleFilter) (g : default_random_engine) :
  landmark_list map_landmarks = [] ->
  updateWeights sensor_range std_landmark (obs :: observations)
    map_landmarks pf g
  = match particles pf with
    | [] => Returns (mk_filter (num_particles pf) [] [], g)
    | _ :: _ => Undefined
    end.
Proof.
  intros Hmap. unfold updateWeights.
  destruct (particles pf) as [|particle ps].
  - reflexivity.
  - cbn [for_each for_each_acc].
    now rewrite (findNearestNeighbour_empty _ _ _ Hmap).
Qed.

Lemma updateWeights_no_observation (sensor_range : R)
  (std_landmark : nat -> R) (map_landmarks : Map)
  (pf : ParticleFilter) (g : default_random_engine) :
  updateWeights sensor_range std_landmark [] map_landmarks pf g
  = Returns (mk_filter (num_particles pf)
               (List.map (fun p => with_weight p 1) (particles pf))
               (List.map (fun _ => 1) (particles pf)), g).
Proof.
  unfold updateWeights. cbv zeta. unfold bind at 1.
  match goal with |- context [for_each ?b ?v] =>
    rewrite (for_each_map_pure b (fun p => with_weight p 1) v g)
      by (intros e; reflexivity)
  end.
  unfold ret. rewrite map_map. reflexivity.
Qed.

(** X9: with no observation, [updateWeights] returns whatever the map is,
    the empty one included; every particle gets weight 1 and keeps the rest
    of its fields, and the weight vector is 1 throughout. *)
Theorem updateWeights_without_observations (sensor_range : R)
  (std_landmark : nat -> R) (map_landmarks : Map)
  (pf : ParticleFilter) (g : default_random_engine) :
  updateWeights sensor_range std_landmark [] map_landmarks pf g
  = Returns (mk_filter (num_particles pf)
               (List.map (fun p => with_weight p 1) (particles pf))
               (repeat 1 (List.length (particles pf))), g).
Proof.
  rewrite updateWeights_no_observation. do 3 f_equal.
  induction (particles pf) as [|p ps IH]; simpl; [reflexivity |].
  now rewrite IH.
Qed.

(** Every filter that [updateWeights] returns is the old one with a new
    weight on each particle and those weights in the weight vector. *)
Lemma updateWeights_returns_cases (sensor_range : R) (std_landmark : nat -> R)
  (observations : list LandmarkObs) (map_landmarks : Map)
  (pf pf' : ParticleFilter) (g g' : default_random_engine) :
  updateWeights sensor_range std_landmark observations map_landmarks pf g
  = Returns (pf', g') ->
  g' = g
  /\ exists W : Particle -> R,
       pf' = mk_filter (num_particles pf)
               (List.map (fun p => with_weight p (W p)) (particles pf))
               (List.map W (particles pf)).
Proof.
  intros Hrun.
  destruct (landmark_list map_landmarks) as [|first rest] eqn:Hmap.
  - destruct observations as [|obs observations].
    + rewrite updateWeights_no_observation in Hrun.
      injection Hrun as <- <-. split; [reflexivity |].
      exists (fun _ => 1). reflexivity.
    + rewrite (updateWeights_no_landmark _ _ _ _ _ _ _ Hmap) in Hrun.
      destruct (particles pf) as [|p ps] eqn:Hps; [| discriminate].
      injection Hrun as <- <-. split; [reflexivity |].
      exists (fun _ => 1). reflexivity.
  - rewrite (updateWeights_spec _ _ _ _ first rest _ _ Hmap) in Hrun.
    injection Hrun as <- <-. split; [reflexivity |].
    exists (fun p => weight_product std_landmark first rest p observations).
    reflexivity.
Qed.

(** X10: whenever [updateWeights] returns, the generator is untouched, each
    particle keeps its pose, id and association lists, and the weight vector
    lists the new weights of the particles in order. *)
Theorem updateWeights_frame (sensor_range : R) (std_landmark : nat -> R)
  (observations : list LandmarkObs) (map_landmarks : Map)
  (pf pf' : ParticleFilter) (g g' : default_random_engine) :
  updateWeights sensor_range std_landmark observations map_landmarks pf g
  = Returns (pf', g') ->
  g' = g
  /\ num_particles pf' = num_particles pf
  /\ List.map pose (particles pf') = List.map pose (particles pf)
  /\ List.map bookkeeping (particles pf') = List.map bookkeeping (particles pf)
  /\ weights pf' = List.map Particle.weight (particles pf').
Proof.
  intros Hrun.
  destruct (updateWeights_returns_cases _ _ _ _ _ _ _ _ Hrun)
    as (-> & W & ->).
  cbn [particles weights num_particles]. rewrite !map_map.
  repeat split; reflexivity.
Qed.

(** X11: [updateWeights] starts every weight afresh: a second call with the
    same arguments on the filter that the first call returned returns that
    same filter. *)
Theorem updateWeights_idempotent (sensor_range : R) (std_landmark : nat -> R)
  (observations : list LandmarkObs) (map_landmarks : Map)
  (pf pf' : ParticleFilter) (g g' : default_random_engine) :
  updateWeights sensor_range std_landmark observations map_landmarks pf g
  = Returns (pf', g') ->
  updateWeights sensor_range std_landmark observations map_landmarks pf' g'
  = Returns (pf', g').
Proof.
  intros Hrun.
  destruct (landmark_list map_landmarks) as [|first rest] eqn:Hmap.
  - destruct observations as [|obs observations].
    + rewrite updateWeights_no_observation in Hrun.
      injection Hrun as <- <-. rewrite updateWeights_no_observation.
      cbn [particles num_particles]. rewrite !map_map. reflexivity.
    + rewrite (updateWeights_no_landmark _ _ _ _ _ _ _ Hmap) in Hrun.
      destruct (particles pf) as [|p ps] eqn:Hps; [| discriminate].
      injection Hrun as <- <-.
      now rewrite (updateWeights_no_landmark _ _ _ _ _ _ _ Hmap).
  - rewrite (updateWeights_spec _ _ _ _ first rest _ _ Hmap) in Hrun.
    injection Hrun as <- <-.
    rewrite (updateWeights_spec _ _ _ _ first rest _ _ Hmap).
    cbn [particles num_particles]. rewrite !map_map. reflexivity.
Qed.

Lemma updateWeights_frame_witness :
  exists pf' g',
    updateWeights 50 (array2 1 1) [obs_left] origin_map tagged_filter engine0
    = Returns (pf', g')
    /\ g' = engine0
    /\ List.map pose (particles pf') = [(3, 4, 0)]
    /\ List.map bookkeeping (particles pf') = [(9%Z, [7%Z; 12%Z], [1; 2], [5; 6])].
Proof.
  assert (Hmap : landmark_list origin_map <> []) by discriminate.
  destruct (updateWeights_returns 50 (array2 1 1) [obs_left] origin_map
              tagged_filter engine0 Hmap) as (pf' & g' & Hrun & _).
  destruct (updateWeights_frame 50 (array2 1 1) [obs_left] origin_map
              tagged_filter pf' engine0 g' Hrun)
    as (Hg & _ & Hpose & Hbook & _).
  exists pf', g'. auto.
Defined.

Lemma updateWeights_idempotent_witness :
  exists pf' g',
    updateWeights 50 (array2 1 1) [obs_left] origin_map tagged_filter engine0
    = Returns (pf', g')
    /\ updateWeights 50 (array2 1 1) [obs_left] origin_map pf' g'
       = Returns (pf', g').
Proof.
  assert (Hmap : landmark_list origin_map <> []) by discriminate.
  destruct (updateWeights_returns 50 (array2 1 1) [obs_left] origin_map
              tagged_filter engine0 Hmap) as (pf' & g' & Hrun & _).
  exists pf', g'. split; [exact Hrun |].
  exact (updateWeights_idempotent 50 (array2 1 1) [obs_left] origin_map
           tagged_filter pf' engine0 g' Hrun).
Defined.

(** For positive deviations the value of [P] is positive and at most
    [1 / (2 PI sigma_x sigma_y)]. *)
Lemma updateWeights_P_bounds (std_landmark : nat -> R) (x_map y_map : R)
  (lm : single_landmark_s) :
  0 < std_landmark 0%nat -> 0 < std_landmark 1%nat ->
  0 < updateWeights_P std_landmark x_map y_map lm
    <= / (2 * PI * std_landmark 0%nat * std_landmark 1%nat).
Proof.
  intros Hx Hy.
  rewrite updateWeights_P_value by lra.
  set (dx := x_map - x_f lm). set (dy := y_map - y_f lm).
  set (E := dx * dx / (2 * std_landmark 0%nat)
            + dy * dy / (std_landmark 1%nat * std_landmark 1%nat)).
  assert (HD : 0 < 2 * PI * std_landmark 0%nat * std_landmark 1%nat).
  { pose proof PI_RGT_0.
    apply Rmult_lt_0_compat; [apply Rmult_lt_0_compat |]; lra. }
  assert (HE : 0 <= E).
  { unfold E, Rdiv. apply Rplus_le_le_0_compat; apply Rmult_le_pos;
      try nra; apply Rlt_le, Rinv_0_lt_compat; nra. }
  assert (Hexp : 0 < exp (- E) <= 1).
  { split; [apply exp_pos |].
    destruct (Rle_lt_or_eq_dec 0 E HE) as [Hpos | <-].
    - rewrite <- exp_0. apply Rlt_le, exp_increasing. lra.
    - rewrite Ropp_0, exp_0. lra.
  }
  pose proof (Rinv_0_lt_compat _ HD) as Hinv.
  unfold Rdiv. split; nra.
Qed.

Lemma weight_product_bounds (std_landmark : nat -> R) first rest
  (p : Particle) (observations : list LandmarkObs) :
  0 < std_landmark 0%nat -> 0 < std_landmark 1%nat ->
  0 < weight_product std_landmark first rest p observations
    <= (/ (2 * PI * std_landmark 0%nat * std_landmark 1%nat))
       ^ List.length observations.
Proof.
  intros Hx Hy. induction observations as [|obs observations IH].
  - simpl. lra.
  - cbn [weight_product fold_right List.length pow].
    fold (weight_product std_landmark first rest p observations).
    unfold observation_P. cbv zeta.
    match goal with |- context [updateWeights_P ?s ?a ?b ?l] =>
      pose proof (updateWeights_P_bounds s a b l Hx Hy) as HP;
      set (P := updateWeights_P s a b l) in *
    end.
    split; nra.
Qed.

(** X12: with positive landmark deviations and a map that has a landmark,
    [updateWeights] returns and every weight is positive and at most
    [(1 / (2 PI sigma_x sigma_y))] to the power of the number of
    observations. *)
Theorem updateWeights_weights_positive (sensor_range : R)
  (std_landmark : nat -> R) (observations : list LandmarkObs)
  (map_landmarks : Map) (pf : ParticleFilter) (g : default_random_engine) :
  0 < std_landmark 0%nat -> 0 < std_landmark 1%nat ->
  landmark_list map_landmarks <> [] ->
  exists pf',
    updateWeights sensor_range std_landmark observations map_landmarks pf g
    = Returns (pf', g)
    /\ Forall (fun w =>
                 0 < w <= (/ (2 * PI * std_landmark 0%nat * std_landmark 1%nat))
                          ^ List.length observations)
         (weights pf')
    /\ Forall (fun p => 0 < Particle.weight p) (particles pf').
Proof.
  intros Hx Hy Hmap.
  destruct (landmark_list map_landmarks) as [|first rest] eqn:Hlist;
    [contradiction |].
  eexists. split.
  { apply (updateWeights_spec _ _ _ _ first rest _ _ Hlist). }
  cbn [weights particles]. split; apply Forall_forall.
  - intros w Hin. apply in_map_iff in Hin. destruct Hin as (p & <- & _).
    now apply weight_product_bounds.
  - intros q Hin. apply in_map_iff in Hin. destruct Hin as (p & <- & _).
    cbn [with_weight Particle.weight].
    now apply weight_product_bounds.
Qed.

Lemma updateWeights_weights_positive_witness :
  exists pf',
    updateWeights 50 (array2 2 3) [obs_left; obs_left] origin_map
      tagged_filter engine0 = Returns (pf', engine0)
    /\ Forall (fun p => 0 < Particle.weight p) (particles pf').
Proof.
  assert (H0 : 0 < array2 2 3 0%nat) by (simpl; lra).
  assert (H1 : 0 < array2 2 3 1%nat) by (simpl; lra).
  assert (Hmap : landmark_list origin_map <> []) by discriminate.
  destruct (updateWeights_weights_positive 50 (array2 2 3) [obs_left; obs_left]
              origin_map tagged_filter engine0 H0 H1 Hmap)
    as (pf' & Hrun & _ & Hpos).
  exists pf'. auto.
Defined.

Lemma weight_product_Permutation (std_landmark : nat -> R) first rest
  (p : Particle) (observations observations' : list LandmarkObs) :
  Permutation observations observations' ->
  weight_product std_landmark first rest p observations
  = weight_product std_landmark first rest p observations'.
Proof.
  unfold weight_product.
  induction 1 as [| obs l l' _ IH | obs1 obs2 l | l l' l'' _ IH1 _ IH2]; simpl.
  - reflexivity.
  - now rewrite IH.
  - ring.
  - now rewrite IH1.
Qed.

(** X13: the order of the observations does not matter: on two lists that
    are permutations of each other [updateWeights] has the same outcome. *)
Theorem updateWeights_observation_order (sensor_range : R)
  (std_landmark : nat -> R) (observations observations' : list LandmarkObs)
  (map_landmarks : Map) (pf : ParticleFilter) (g : default_random_engine) :
  Permutation observations observations' ->
  updateWeights sensor_range std_landmark observations map_landmarks pf g
  = updateWeights sensor_range std_landmark observations' map_landmarks pf g.
Proof.
  intros Hperm.
  destruct (landmark_list map_landmarks) as [|first rest] eqn:Hmap.
  - destruct observations as [|obs observations].
    + apply Permutation_nil in Hperm. now subst.
    + destruct observations' as [|obs' observations'].
      * apply Permutation_sym, Permutation_nil in Hperm. discriminate.
      * now rewrite !(updateWeights_no_landmark _ _ _ _ _ _ _ Hmap).
  - rewrite !(updateWeights_spec _ _ _ _ first rest _ _ Hmap).
    do 2 f_equal. f_equal; apply map_ext; intros p;
      now rewrite (weight_product_Permutation _ _ _ _ _ _ Hperm).
Qed.

Lemma updateWeights_observation_order_witness :
  updateWeights 50 (array2 1 1) [obs_left; LandmarkObs.mk 1%Z 2 0]
    origin_map tagged_filter engine0
  = updateWeights 50 (array2 1 1) [LandmarkObs.mk 1%Z 2 0; obs_left]
      origin_map tagged_filter engine0.
Proof.
  exact (updateWeights_observation_order 50 (array2 1 1) _ _ origin_map
           tagged_filter engine0
           (perm_swap (LandmarkObs.mk 1%Z 2 0) obs_left [])).
Defined.

(** ** Resampling, slot by slot *)

Lemma subscript_nth {A : Type} (v : list A) (i : nat) (d : A) :
  (i < List.length v)%nat -> subscript v i = Returns (nth i v d).
Proof.
  intros Hi. unfold subscript.
  now rewrite (nth_error_nth' v d Hi).
Qed.

Lemma drawn_index_in_range (ws : list R) (n k : nat) :
  (0 < n)%nat -> (List.length ws <= n)%nat ->
  (k mod Nat.max 1 (List.length ws) < n)%nat.
Proof.
  intros Hn Hw.
  assert (Hpos : Nat.max 1 (List.length ws) <> 0%nat) by lia.
  pose proof (Nat.mod_upper_bound k _ Hpos). lia.
Qed.

Lemma resample_spec (pf : ParticleFilter) (g : default_random_engine) :
  (List.length (weights pf) <= List.length (particles pf))%nat ->
  exists ps,
    resample pf g
    = Returns (mk_filter (num_particles pf) ps (weights pf),
               after_draws (List.length (particles pf)) g)
    /\ List.length ps = List.length (particles pf)
    /\ forall i p, nth_error ps i = Some p ->
         nth_error (particles pf)
           (index_variates g (drawn g + i)
            mod Nat.max 1 (List.length (weights pf))) = Some p.
Proof.
  intros Hw. unfold resample. cbv zeta. unfold bind at 1.
  destruct (particles pf) as [|first rest] eqn:Hps.
  - exists []. cbn [List.length repeat for_each]. unfold ret, after_draws.
    repeat split; auto. intros [|i] p Hp; discriminate.
  - rewrite <- Hps in *.
    assert (Hn : (0 < List.length (particles pf))%nat)
      by (rewrite Hps; simpl; lia).
    pose (F := fun (g' : default_random_engine) (_ : Particle) =>
                 nth (index_variates g' (drawn g')
                      mod Nat.max 1 (List.length (weights pf)))
                   (particles pf) Particle_default).
    match goal with |- context [for_each ?b ?vv] =>
      assert (Hbody : forall e g0, b e g0 = Returns (F g0 e, after_draws 1 g0));
        [| destruct (for_each_nth b F 1 Hbody vv g)
             as (ps & Hloop & Hlen & Hnth)]
    end.
    + intros e g0. unfold bind, discrete_distribution.
      rewrite (subscript_nth _ _ Particle_default)
        by (apply drawn_index_in_range; assumption).
      reflexivity.
    + rewrite repeat_length in Hloop, Hlen. rewrite Nat.mul_1_l in Hloop.
      exists ps. rewrite Hloop. unfold ret.
      split; [reflexivity |]. split; [exact Hlen |].
      intros i p Hp. destruct (Hnth i p Hp) as (e & _ & ->).
      destruct (after_draws_fields (1 * i) g) as (_ & Hi & Hd).
      unfold F. rewrite Hi, Hd, Nat.mul_1_l.
      apply nth_error_nth'. apply drawn_index_in_range; assumption.
Qed.

(** X14: when the weight vector is no longer than the population,
    [resample] returns a population of the same size whose [i]-th slot is a
    copy of the old particle at the index that the [i]-th draw yields, so
    every new particle is one of the old ones; one value is drawn per slot,
    and [num_particles] and the weight vector stay as they were. *)
Theorem resample_selects_old_particles (pf : ParticleFilter)
  (g : default_random_engine) :
  (List.length (weights pf) <= List.length (particles pf))%nat ->
  exists pf',
    resample pf g = Returns (pf', after_draws (List.length (particles pf)) g)
    /\ List.length (particles pf') = List.length (particles pf)
    /\ num_particles pf' = num_particles pf
    /\ weights pf' = weights pf
    /\ (forall i, (i < List.length (particles pf))%nat ->
          exists p,
            nth_error (particles pf') i = Some p
            /\ nth_error (particles pf)
                 (index_variates g (drawn g + i)
                  mod Nat.max 1 (List.length (weights pf))) = Some p)
    /\ Forall (fun p => In p (particles pf)) (particles pf').
Proof.
  intros Hw. destruct (resample_spec pf g Hw) as (ps & Hrun & Hlen & Hnth).
  eexists. split; [exact Hrun |]. cbn [particles num_particles weights].
  split; [exact Hlen |]. split; [reflexivity |]. split; [reflexivity |].
  split.
  { intros i Hi. destruct (nth_error ps i) as [p |] eqn:Hp.
    - exists p. split; [reflexivity | exact (Hnth i p Hp)].
    - apply nth_error_None in Hp. lia. }
  apply Forall_forall. intros p Hin.
  apply In_nth_error in Hin. destruct Hin as (i & Hi).
  eapply nth_error_In. exact (Hnth i p Hi).
Qed.

Lemma resample_selects_old_particles_witness :
  exists pf',
    resample tagged_filter engine0 = Returns (pf', after_draws 1 engine0)
    /\ (exists p, nth_error (particles pf') 0 = Some p
                  /\ nth_error [tagged_particle] (0 mod Nat.max 1 0) = Some p)
    /\ Forall (fun p => In p [tagged_particle]) (particles pf').
Proof.
  assert (Hw : (List.length (weights tagged_filter)
                <= List.length (particles tagged_filter))%nat)
    by (simpl; lia).
  destruct (resample_selects_old_particles tagged_filter engine0 Hw)
    as (pf' & Hrun & _ & _ & _ & Hnth & Hin).
  exists pf'. split; [exact Hrun |]. split; [| exact Hin].
  apply (Hnth 0%nat). simpl. lia.
Defined.

Lemma nth_error_all_repeat {A : Type} (a : A) (l : list A) :
  (forall i p, nth_error l i = Some p -> p = a) ->
  l = repeat a (List.length l).
Proof.
  induction l as [|b l IH]; intros Hall; simpl; [reflexivity |].
  rewrite (Hall 0%nat b eq_refl). f_equal.
  apply IH. intros i p Hp. exact (Hall (S i) p Hp).
Qed.

(** X15: [resample] on a filter whose weight vector has at most one entry
    (none, before any [updateWeights]) replaces every particle by a copy of
    the first one. *)
Theorem resample_without_weights (pf : ParticleFilter)
  (g : default_random_engine) (first : Particle) (rest : list Particle) :
  (List.length (weights pf) <= 1)%nat ->
  particles pf = first :: rest ->
  exists g',
    resample pf g
    = Returns (mk_filter (num_particles pf)
                 (repeat first (S (List.length rest))) (weights pf), g').
Proof.
  intros Hw Hps.
  assert (Hw' : (List.length (weights pf) <= List.length (particles pf))%nat)
    by (rewrite Hps; simpl; lia).
  destruct (resample_spec pf g Hw') as (ps & Hrun & Hlen & Hnth).
  eexists. rewrite Hrun. do 2 f_equal.
  rewrite Hps in Hlen. simpl in Hlen. rewrite <- Hlen.
  f_equal. apply nth_error_all_repeat. intros i p Hp.
  specialize (Hnth i p Hp).
  replace (Nat.max 1 (List.length (weights pf))) with 1%nat in Hnth by lia.
  rewrite Nat.mod_1_r, Hps in Hnth. simpl in Hnth. congruence.
Qed.

Lemma resample_without_weights_witness :
  exists g',
    resample (mk_filter 2 [tagged_particle; particle_at 0 0 0] []) engine0
    = Returns (mk_filter 2 [tagged_particle; tagged_particle] [], g').
Proof.
  assert (Hw : (List.length
                  (weights (mk_filter 2 [tagged_particle; particle_at 0 0 0] []))
                <= 1)%nat) by (simpl; lia).
  exact (resample_without_weights
           (mk_filter 2 [tagged_particle; particle_at 0 0 0] []) engine0
           tagged_particle [particle_at 0 0 0] Hw eq_refl).
Defined.

(** ** Rendering of non-empty lists *)

Lemma length_append (s t : string) :
  String.length (s ++ t) = (String.length s + String.length t)%nat.
Proof.
  induction s as [|c s IH]; simpl; [reflexivity | now rewrite IH].
Qed.

Lemma substring_prefix (s t : string) :
  String.substring 0 (String.length s) (s ++ t) = s.
Proof.
  induction s as [|c s IH]; simpl.
  - now destruct t.
  - now rewrite IH.
Qed.

(** Dropping the last character of a string that ends in a space, the way
    the two rendering functions do it. *)
Lemma substr_drops_last (s : string) :
  (string_length (s ++ " ") < 2 ^ 64)%Z ->
  substr (s ++ " ") 0 (size_t_sub (string_length (s ++ " ")) 1) = Returns s.
Proof.
  unfold substr, size_t_sub, string_length. intros Hlen.
  rewrite length_append in *. cbn [String.length] in *.
  replace (Z.of_nat (String.length s + 1) - 1)%Z
    with (Z.of_nat (String.length s)) by lia.
  rewrite Z.mod_small by lia.
  destruct (Z.ltb_spec (Z.of_nat (String.length s + 1)) 0); [lia |].
  rewrite Z.min_l by lia. rewrite Nat2Z.id. cbn [Z.to_nat].
  now rewrite substring_prefix.
Qed.

Lemma append_assoc (s t u : string) : ((s ++ t) ++ u = s ++ (t ++ u))%string.
Proof.
  induction s as [|c s IH]; simpl; [reflexivity | now rewrite IH].
Qed.

Lemma copy_ostream_joined {A : Type} (format : A -> string) (a : A)
  (v : list A) :
  copy_ostream format " " (a :: v) = (joined format (a :: v) ++ " ")%string.
Proof.
  revert a. induction v as [|b v IH]; intros a.
  - reflexivity.
  - change (copy_ostream format " " (a :: b :: v))
      with (format a ++ " " ++ copy_ostream format " " (b :: v))%string.
    rewrite IH. unfold joined. cbn [List.map String.concat].
    now rewrite !append_assoc.
Qed.

Lemma render_joined {A : Type} (format : A -> string) (v : list A) :
  (string_length (copy_ostream format " " v) < 2 ^ 64)%Z ->
  substr (copy_ostream format " " v) 0
    (size_t_sub (string_length (copy_ostream format " " v)) 1)
  = Returns (joined format v).
Proof.
  destruct v as [|a v]; intros Hlen.
  - apply substr_empty.
  - rewrite copy_ostream_joined in *. now apply substr_drops_last.
Qed.

(** X16: for every association list whose text fits a [size_t],
    [getAssociations] returns the ids in decimal with single spaces between
    them and none after the last; [substr] never throws. *)
Theorem getAssociations_joined (best : Particle) :
  (string_length (copy_ostream format_int " " (Particle.associations best))
   < 2 ^ 64)%Z ->
  getAssociations best
  = Returns (joined format_int (Particle.associations best)).
Proof.
  intros Hlen. unfold getAssociations. cbv zeta. now apply render_joined.
Qed.

Lemma getAssociations_joined_witness :
  getAssociations tagged_particle = Returns "7 12"%string.
Proof.
  apply (getAssociations_joined tagged_particle). reflexivity.
Defined.

(** X17: [getSenseCoord] renders [sense_x] when the coordinate name is
    exactly ["X"] and [sense_y] for every other name, each value written by
    the float formatting, with single spaces between values and none after
    the last. *)
Theorem getSenseCoord_joined (format_float : R -> string) (best : Particle)
  (coord : string) :
  let v := if String.eqb coord "X" then Particle.sense_x best
           else Particle.sense_y best in
  (string_length (copy_ostream format_float " " v) < 2 ^ 64)%Z ->
  getSenseCoord format_float best coord = Returns (joined format_float v).
Proof.
  intros v Hlen. unfold getSenseCoord. cbv zeta. now apply render_joined.
Qed.

Lemma getSenseCoord_joined_witness :
  getSenseCoord (fun _ => "1.5"%string) tagged_particle "x"
  = Returns "1.5 1.5"%string.
Proof.
  apply (getSenseCoord_joined (fun _ => "1.5"%string) tagged_particle "x").
  reflexivity.
Defined.

(** X18: what [SetAssociations] stores is what [getAssociations] renders,
    and the call touches neither the pose, the weight nor the id. *)
Theorem SetAssociations_then_getAssociations (particle : Particle)
  (associations : list Z) (sense_x sense_y : list R) :
  (string_length (copy_ostream format_int " " associations) < 2 ^ 64)%Z ->
  getAssociations (SetAssociations particle associations sense_x sense_y)
  = Returns (joined format_int associations)
  /\ pose (SetAssociations particle associations sense_x sense_y)
     = pose particle
  /\ Particle.weight (SetAssociations particle associations sense_x sense_y)
     = Particle.weight particle
  /\ Particle.id (SetAssociations particle associations sense_x sense_y)
     = Particle.id particle.
Proof.
  intros Hlen. split; [| repeat split].
  unfold getAssociations, SetAssociations. cbv zeta.
  cbn [Particle.associations]. now apply render_joined.
Qed.

Lemma SetAssociations_then_getAssociations_witness :
  getAssociations (SetAssociations tagged_particle [4%Z; (-3)%Z; 0%Z] [] [])
  = Returns "4 -3 0"%string.
Proof.
  apply (SetAssociations_then_getAssociations tagged_particle
           [4%Z; (-3)%Z; 0%Z] [] []).
  reflexivity.
Defined.

(** *** The rendered ids can be read back *)

Lemma string_of_uint_no_space (d : Decimal.uint) :
  ~ In " "%char (chars (NilEmpty.string_of_uint d)).
Proof.
  induction d; simpl; [tauto | ..];
    intros [Hc | Hin]; try discriminate; auto.
Qed.

Lemma format_int_no_space (n : Z) : ~ In " "%char (chars (format_int n)).
Proof.
  unfold format_int.
  assert (Hu : forall d, ~ In " "%char (chars (NilZero.string_of_uint d))).
  { intros d. destruct d; try apply string_of_uint_no_space.
    simpl. intros [Hc | []]. discriminate. }
  destruct (Z.to_int n) as [d | d]; simpl.
  - apply Hu.
  - intros [Hc | Hin]; [discriminate | now apply (Hu d)].
Qed.

Lemma to_int_not_nil (n : Z) :
  Z.to_int n <> Decimal.Pos Decimal.Nil /\ Z.to_int n <> Decimal.Neg Decimal.Nil.
Proof.
  destruct n as [|p|p]; simpl; split; try discriminate;
    intros [= H]; now apply (DecimalPos.Unsigned.to_uint_nonnil p).
Qed.

Lemma format_int_inj (a b : Z) : format_int a = format_int b -> a = b.
Proof.
  unfold format_int. intros Heq.
  apply DecimalZ.to_int_inj.
  destruct (to_int_not_nil a) as (Ha1 & Ha2).
  destruct (to_int_not_nil b) as (Hb1 & Hb2).
  pose proof (NilZero.isi _ Ha1 Ha2) as Ha.
  pose proof (NilZero.isi _ Hb1 Hb2) as Hb.
  rewrite Heq in Ha. congruence.
Qed.

Lemma format_int_not_empty (n : Z) : format_int n <> ""%string.
Proof.
  unfold format_int. destruct (Z.to_int n) as [d | d]; simpl.
  - destruct d; simpl; discriminate.
  - discriminate.
Qed.

(** Two texts without a space, each followed by a space, that start equal
    strings are equal, and so are the remainders. *)
Lemma split_at_first_space (u v s s' : string) :
  ~ In " "%char (chars u) -> ~ In " "%char (chars v) ->
  (u ++ String " " s = v ++ String " " s')%string ->
  u = v /\ s = s'.
Proof.
  revert v. induction u as [|c u IH]; intros [|c' v] Hu Hv Heq; simpl in *.
  - injection Heq as <-. auto.
  - injection Heq as <- _. exfalso. apply Hv. now left.
  - injection Heq as -> _. exfalso. apply Hu. now left.
  - injection Heq as <- Heq.
    destruct (IH v) as (<- & <-); auto.
Qed.

Lemma copy_ostream_format_int_inj (l l' : list Z) :
  copy_ostream format_int " " l = copy_ostream format_int " " l' -> l = l'.
Proof.
  revert l'. induction l as [|a l IH]; intros [|b l'] Heq.
  - reflexivity.
  - exfalso. simpl in Heq. destruct (format_int b); discriminate.
  - exfalso. simpl in Heq. destruct (format_int a); discriminate.
  - cbn [copy_ostream] in Heq.
    change (" " ++ copy_ostream format_int " " l)%string
      with (String " " (copy_ostream format_int " " l)) in Heq.
    change (" " ++ copy_ostream format_int " " l')%string
      with (String " " (copy_ostream format_int " " l')) in Heq.
    apply split_at_first_space in Heq; try apply format_int_no_space.
    destruct Heq as (Hab & Hrest).
    f_equal; [now apply format_int_inj | now apply IH].
Qed.

(** X19: the text of [getAssociations] determines the id list: two
    particles for which it returns the same text have the same
    associations. *)
Theorem getAssociations_injective (best best' : Particle) :
  (string_length (copy_ostream format_int " " (Particle.associations best))
   < 2 ^ 64)%Z ->
  (string_length (copy_ostream format_int " " (Particle.associations best'))
   < 2 ^ 64)%Z ->
  getAssociations best = getAssociations best' ->
  Particle.associations best = Particle.associations best'.
Proof.
  intros Hlen Hlen' Heq.
  unfold getAssociations in Heq. cbv zeta in Heq.
  rewrite !render_joined in Heq by assumption.
  injection Heq as Heq.
  destruct (Particle.associations best) as [|a l];
    destruct (Particle.associations best') as [|b l'].
  - reflexivity.
  - exfalso.
    assert (Hcopy : copy_ostream format_int " " (b :: l') = " "%string)
      by now rewrite copy_ostream_joined, <- Heq.
    cbn [copy_ostream] in Hcopy.
    pose proof (format_int_not_empty b) as Hb.
    destruct (format_int b) as [|c s]; [congruence |].
    simpl in Hcopy. injection Hcopy as _ Hs. now destruct s.
  - exfalso.
    assert (Hcopy : copy_ostream format_int " " (a :: l) = " "%string)
      by now rewrite copy_ostream_joined, Heq.
    cbn [copy_ostream] in Hcopy.
    pose proof (format_int_not_empty a) as Ha.
    destruct (format_int a) as [|c s]; [congruence |].
    simpl in Hcopy. injection Hcopy as _ Hs. now destruct s.
  - apply copy_ostream_format_int_inj.
    now rewrite !copy_ostream_joined, Heq.
Qed.

Lemma getAssociations_injective_witness :
  getAssociations tagged_particle
  = getAssociations (SetAssociations (particle_at 0 0 0) [7%Z; 12%Z] [] [])
  /\ Particle.associations tagged_particle
     = Particle.associations
         (SetAssociations (particle_at 0 0 0) [7%Z; 12%Z] [] []).
Proof.
  assert (Heq : getAssociations tagged_particle
                = getAssociations
                    (SetAssociations (particle_at 0 0 0) [7%Z; 12%Z] [] []))
    by reflexivity.
  split; [exact Heq |].
  apply (getAssociations_injective tagged_particle
           (SetAssociations (particle_at 0 0 0) [7%Z; 12%Z] [] []));
    [reflexivity | reflexivity | exact Heq].
Defined.

(** ** Weighting followed by resampling *)

(** X20: over the reals, where no weight underflows to zero: with positive
    landmark deviations and a map that has a landmark, [updateWeights]
    followed by [resample] returns for every filter; the population keeps its
    size, every particle of it is one of the weighted particles and carries a
    positive weight, and the weight vector still lists the weights of the
    population before resampling. *)
Theorem updateWeights_then_resample (sensor_range : R)
  (std_landmark : nat -> R) (observations : list LandmarkObs)
  (map_landmarks : Map) (pf : ParticleFilter) (g : default_random_engine) :
  0 < std_landmark 0%nat -> 0 < std_landmark 1%nat ->
  landmark_list map_landmarks <> [] ->
  exists pf1 pf2 g2,
    updateWeights sensor_range std_landmark observations map_landmarks pf g
    = Returns (pf1, g)
    /\ resample pf1 g = Returns (pf2, g2)
    /\ List.length (particles pf2) = List.length (particles pf)
    /\ Forall (fun p => In p (particles pf1) /\ 0 < Particle.weight p)
         (particles pf2)
    /\ weights pf2 = List.map Particle.weight (particles pf1).
Proof.
  intros Hx Hy Hmap.
  destruct (landmark_list map_landmarks) as [|first rest] eqn:Hlist;
    [contradiction |].
  pose proof (updateWeights_spec sensor_range std_landmark observations
                map_landmarks first rest pf g Hlist) as Hrun.
  match type of Hrun with _ = Returns (?t, _) => set (pf1 := t) in * end.
  assert (Hw : (List.length (weights pf1) <= List.length (particles pf1))%nat).
  { unfold pf1. cbn [weights particles]. rewrite !length_map. lia. }
  destruct (resample_spec pf1 g Hw) as (ps & Hres & Hlen & Hnth).
  exists pf1. eexists. eexists. split; [exact Hrun |].
  split; [exact Hres |]. cbn [particles weights].
  split; [| split].
  - rewrite Hlen. unfold pf1. cbn [particles]. apply length_map.
  - apply Forall_forall. intros p Hin.
    apply In_nth_error in Hin. destruct Hin as (i & Hi).
    apply Hnth, nth_error_In in Hi. split; [exact Hi |].
    unfold pf1 in Hi. cbn [particles] in Hi.
    apply in_map_iff in Hi. destruct Hi as (q & <- & _).
    cbn [with_weight Particle.weight].
    now apply weight_product_bounds.
  - unfold pf1. cbn [particles weights]. now rewrite map_map.
Qed.

Lemma updateWeights_then_resample_witness :
  exists pf1 pf2 g2,
    updateWeights 50 (array2 2 3) [obs_left] origin_map tagged_filter engine0
    = Returns (pf1, engine0)
    /\ resample pf1 engine0 = Returns (pf2, g2)
    /\ Forall (fun p => In p (particles pf1) /\ 0 < Particle.weight p)
         (particles pf2).
Proof.
  assert (H0 : 0 < array2 2 3 0%nat) by (simpl; lra).
  assert (H1 : 0 < array2 2 3 1%nat) by (simpl; lra).
  assert (Hmap : landmark_list origin_map <> []) by discriminate.
  destruct (updateWeights_then_resample 50 (array2 2 3) [obs_left] origin_map
              tagged_filter engine0 H0 H1 Hmap)
    as (pf1 & pf2 & g2 & Hrun & Hres & _ & Hall & _).
  exists pf1, pf2, g2. auto.
Defined.

(** ** Parameters are not validated *)

(** C5, amended: the operations do not validate their parameters and never
    fail with [InvalidParameter]; a call with a deviation or a [delta_t]
    that is zero or negative runs the computation of a valid call.  (Doubles
    are reals here, and a normal draw is [mean + stddev * variate] for every
    [stddev], as the library computes it.)  For all parameters:
    - [init] returns 100 particles of weight 1, the [i]-th at the estimate
      plus [std[k]] times the variate [3i + k], and leaves the weight vector;
    - [prediction] returns with the [i]-th particle at the motion update for
      the given [delta_t] plus [std_pos[k]] times the variate [3i + k], its
      weight, id and association lists kept;
    - [updateWeights], on a map with a first landmark, returns without
      drawing, each particle keeping all but its weight and the weight vector
      listing the new weights; for non-zero deviations the weight is the
      product of [P] over the observations. *)
Theorem operations_accept_any_parameter
  (x y theta delta_t velocity yaw_rate sensor_range : R)
  (std std_pos std_landmark : nat -> R)
  (observations : list LandmarkObs) (map_landmarks : Map)
  (pf : ParticleFilter) (g : default_random_engine) :
  (exists pf',
     init x y theta std pf g = Returns (pf', after_draws 300 g)
     /\ List.length (particles pf') = 100%nat
     /\ num_particles pf' = 100%Z
     /\ weights pf' = weights pf
     /\ forall i, (i < 100)%nat ->
          exists p,
            nth_error (particles pf') i = Some p
            /\ pose p
               = (x + std 0%nat * normal_variates g (drawn g + 3 * i),
                  y + std 1%nat * normal_variates g (drawn g + 3 * i + 1),
                  theta + std 2%nat * normal_variates g (drawn g + 3 * i + 2))
            /\ Particle.weight p = 1)
  /\ (exists pf',
        prediction delta_t std_pos velocity yaw_rate pf g
        = Returns (pf', after_draws (3 * List.length (particles pf)) g)
        /\ List.length (particles pf') = List.length (particles pf)
        /\ num_particles pf' = num_particles pf
        /\ weights pf' = weights pf
        /\ forall i old, nth_error (particles pf) i = Some old ->
             exists p,
               nth_error (particles pf') i = Some p
               /\ pose p
                  = (Particle.x (motion_update delta_t velocity yaw_rate old)
                     + std_pos 0%nat * normal_variates g (drawn g + 3 * i),
                     Particle.y (motion_update delta_t velocity yaw_rate old)
                     + std_pos 1%nat * normal_variates g (drawn g + 3 * i + 1),
                     Particle.theta (motion_update delta_t velocity yaw_rate old)
                     + std_pos 2%nat * normal_variates g (drawn g + 3 * i + 2))
               /\ Particle.weight p = Particle.weight old
               /\ bookkeeping p = bookkeeping old)
  /\ (forall first rest, landmark_list map_landmarks = first :: rest ->
      exists W : Particle -> R,
        updateWeights sensor_range std_landmark observations map_landmarks pf g
        = Returns (mk_filter (num_particles pf)
                     (List.map (fun p => with_weight p (W p)) (particles pf))
                     (List.map W (particles pf)), g)
        /\ (std_landmark 0%nat <> 0 -> std_landmark 1%nat <> 0 ->
            forall p, W p = weight_product std_landmark first rest p
                              observations)).
Proof.
  split; [| split].
  - destruct (init_spec x y theta std pf g) as (ps & Hrun & Hlen & Hnth).
    eexists. split; [exact Hrun |]. cbn [particles weights num_particles].
    split; [exact Hlen |]. do 2 (split; [reflexivity |]).
    intros i Hi.
    destruct (nth_error ps i) as [p |] eqn:Hp.
    + exists p. split; [reflexivity |].
      destruct (Hnth i p Hp) as (e & _ & ->). split; reflexivity.
    + apply nth_error_None in Hp. lia.
  - destruct (prediction_spec delta_t std_pos velocity yaw_rate pf g)
      as (ps & Hrun & Hlen & Hnth).
    eexists. split; [exact Hrun |]. cbn [particles weights num_particles].
    split; [exact Hlen |]. do 2 (split; [reflexivity |]).
    intros i old Hold.
    destruct (nth_error ps i) as [p |] eqn:Hp.
    + exists p. split; [reflexivity |].
      destruct (Hnth i p Hp) as (e & He & Hrest).
      rewrite Hold in He. injection He as <-. exact Hrest.
    + apply nth_error_None in Hp.
      assert (i < List.length (particles pf))%nat
        by (apply nth_error_Some; congruence).
      lia.
  - intros first rest Hmap.
    exists (fun p => weight_product std_landmark first rest p observations).
    split; [| reflexivity].
    apply (updateWeights_spec _ _ _ _ first rest _ _ Hmap).
Qed.

Lemma operations_accept_any_parameter_witness :
  (exists pf',
     init 4 5 1 (array3 0 0 0) tagged_filter engine0
     = Returns (pf', after_draws 300 engine0)
     /\ exists p, nth_error (particles pf') 7 = Some p
                  /\ pose p = (4 + 0 * 0, 5 + 0 * 0, 1 + 0 * 0)
                  /\ Particle.weight p = 1)
  /\ (exists pf',
        prediction (-1) (array3 1 1 1) 2 0 tagged_filter engine0
        = Returns (pf', after_draws 3 engine0)
        /\ exists p,
             nth_error (particles pf') 0 = Some p
             /\ pose p
                = (Particle.x (motion_update (-1) 2 0 tagged_particle) + 1 * 0,
                   Particle.y (motion_update (-1) 2 0 tagged_particle) + 1 * 0,
                   Particle.theta (motion_update (-1) 2 0 tagged_particle)
                   + 1 * 0))
  /\ (exists W : Particle -> R,
        updateWeights 50 (array2 (-1) (-1)) [obs_left] origin_map
          tagged_filter engine0
        = Returns (mk_filter 1 [with_weight tagged_particle (W tagged_particle)]
                     [W tagged_particle], engine0)
        /\ W tagged_particle
           = weight_product (array2 (-1) (-1)) lm_origin [] tagged_particle
               [obs_left]).
Proof.
  destruct (operations_accept_any_parameter 4 5 1 (-1) 2 0 50
              (array3 0 0 0) (array3 1 1 1) (array2 (-1) (-1))
              [obs_left] origin_map tagged_filter engine0)
    as ((pfi & Hinit & _ & _ & _ & Hpose) & (pfp & Hpred & _ & _ & _ & Hmove)
        & Hweigh).
  split; [| split].
  - exists pfi. split; [exact Hinit |]. apply (Hpose 7%nat). lia.
  - exists pfp. split; [exact Hpred |].
    destruct (Hmove 0%nat tagged_particle eq_refl) as (p & Hp & Hpp & _).
    exists p. split; [exact Hp | exact Hpp].
  - destruct (Hweigh lm_origin [] eq_refl) as (W & Hrun & HW).
    exists W. split; [exact Hrun |].
    apply HW; simpl; lra.
Defined.
